(** * Schedule store of the scheduler package

    A shallow embedding of [packages/scheduler/lib/models/schedules.ts]:
    the schedule entity and its storage row, the state transition
    validator, the interval codec and the six persistence operations
    ([create], [get], [transitionState], [update], [remove], [search]).

    Conventions of the embedding.
    - A JavaScript [number] that holds an integer is a [Z]; a [Date] is
      its millisecond count, also a [Z]. The limits of doubles and of
      the engine's interval range are modelled apart, in [Float64] and
      [store_interval_ranged], for the codec.
    - An optional property ([x?: T]) is an [option T]; [null] in
      [Date | null] is [None].
    - An [async] operation is a computation of the monad [M]: it reads
      and writes the world (the [schedules] table behind the [knex]
      handle, the clock read by [new Date()], the identifier [uuidv7()]
      hands out) and completes either normally or by a thrown value, so
      that [try]/[catch] is written as in the source.
    - [Ok]/[Err] are the two variants of [Result] of [@nangohq/utils]. *)

From Stdlib Require Import ZArith List String Ascii Bool Lia.
From Stdlib Require Import DecimalString DecimalPos DecimalZ Permutation.
Import ListNotations.

Set Warnings "-register-all".

Local Open Scope string_scope.
Local Open Scope Z_scope.

(** ** Values *)

(** Modelled from the spec: [ScheduleState] of [../types], which is not
    among the sources. The spec gives [STARTED | PAUSED | DELETED], the
    three literals the transition table of the source is written with. *)
Inductive ScheduleState : Set := STARTED | PAUSED | DELETED.

(** The string a state is at run time, as a template literal prints it. *)
Definition state_str (s : ScheduleState) : string :=
  match s with
  | STARTED => "STARTED"
  | PAUSED => "PAUSED"
  | DELETED => "DELETED"
  end.

Definition state_eqb (a b : ScheduleState) : bool :=
  match a, b with
  | STARTED, STARTED | PAUSED, PAUSED | DELETED, DELETED => true
  | _, _ => false
  end.

Definition Date : Set := Z.

(** [JsonValue] of [type-fest]: primitives, arrays and objects. A JSON
    number is taken to be an integer; what the source asks of a payload
    is only whether it is truthy. *)
Inductive JsonValue : Set :=
| JNull
| JBool (b : bool)
| JNumber (n : Z)
| JString (s : string)
| JArray (items : list JsonValue)
| JObject (fields : list (string * JsonValue)).

(** [new Error(message)]. *)
Record Error : Set := NewError { message : string }.

(** Modelled from the spec: [Result<T>] of [@nangohq/utils], which is not
    among the sources; a discriminated success/failure wrapper carrying
    either the value, [Ok(value)], or a descriptive error, [Err(error)]. *)
Inductive Result (T : Type) : Type :=
| Ok (value : T)
| Err (error : Error).
Arguments Ok {T} value.
Arguments Err {T} error.

Definition isErr {T} (r : Result T) : bool :=
  match r with Ok _ => false | Err _ => true end.

(** ** JavaScript truthiness, as the conditionals of the source use it *)

Definition truthy_number (n : Z) : bool := negb (n =? 0).

Definition truthy_string (s : string) : bool :=
  match s with EmptyString => false | String _ _ => true end.

Definition truthy_json (v : JsonValue) : bool :=
  match v with
  | JNull => false
  | JBool b => b
  | JNumber n => truthy_number n
  | JString s => truthy_string s
  | JArray _ => true
  | JObject _ => true
  end.

(** [x ? a : b] on an optional property: [undefined] is falsy. *)
Definition truthy_opt {T} (truthy : T -> bool) (x : option T) : bool :=
  match x with None => false | Some v => truthy v end.

(** ** State transition validator *)

Record ScheduleStateTransition : Set :=
  { from : ScheduleState; to : ScheduleState }.

Definition validScheduleStateTransitions : list ScheduleStateTransition :=
  [ {| from := STARTED; to := PAUSED |};
    {| from := STARTED; to := DELETED |};
    {| from := PAUSED; to := STARTED |} ].

(** [validate({ from, to })]: [Array.prototype.find] over the table. *)
Definition validate (from0 to0 : ScheduleState) : Result ScheduleStateTransition :=
  match find (fun t => state_eqb (from t) from0 && state_eqb (to t) to0)
             validScheduleStateTransitions with
  | Some transition => Ok transition
  | None =>
      Err (NewError ("Invalid state transition from " ++ state_str from0
                     ++ " to " ++ state_str to0))
  end.

(** ** Entity model *)

(** Modelled from the spec: [Schedule] of [../types], which is not among
    the sources; its fields are those of the spec's data model, which
    are also the ones [DbSchedule.to] and [DbSchedule.from] read and
    write. *)
Module Schedule.
Record t : Set :=
  { id : string;
    name : string;
    state : ScheduleState;
    startsAt : Date;
    frequencyMs : Z;
    payload : JsonValue;
    createdAt : Date;
    updatedAt : Date;
    deletedAt : option Date }.
End Schedule.

(** [Omit<Schedule, 'id' | 'state' | 'createdAt' | 'updatedAt' | 'deletedAt'>] *)
Module ScheduleProps.
Record t : Set :=
  { name : string;
    startsAt : Date;
    frequencyMs : Z;
    payload : JsonValue }.
End ScheduleProps.

(** The object [postgres-interval] builds for an [interval] column: a
    property is present only when its value is not zero. *)
Record PostgresInterval : Set :=
  { years : option Z;
    months : option Z;
    days : option Z;
    hours : option Z;
    minutes : option Z;
    seconds : option Z;
    milliseconds : option Z }.

(** [x ?? 0] *)
Definition orZero (x : option Z) : Z :=
  match x with Some v => v | None => 0 end.

Definition postgresIntervalInMs (i : PostgresInterval) : Z :=
  orZero (years i) * 31536000000 +
  orZero (months i) * 2592000000 +
  orZero (days i) * 86400000 +
  orZero (hours i) * 3600000 +
  orZero (minutes i) * 60000 +
  orZero (seconds i) * 1000 +
  orZero (milliseconds i).

(** [`${n}`] for an integer [n]: its decimal digits, with a minus sign
    when negative. *)
Definition number_str (n : Z) : string :=
  NilZero.string_of_int (Z.to_int n).

Module DbSchedule.
(** The row of the [schedules] table. [F] is the type of the
    [frequency] column on the wire: the interval literal (a string) on
    the way in, the [PostgresInterval] object on the way out; the
    source declares [string] and casts on the way out. *)
Record t (F : Set) : Set :=
  { id : string;
    name : string;
    state : ScheduleState;
    starts_at : Date;
    frequency : F;
    payload : JsonValue;
    created_at : Date;
    updated_at : Date;
    deleted_at : option Date }.
Arguments id {F} _.
Arguments name {F} _.
Arguments state {F} _.
Arguments starts_at {F} _.
Arguments frequency {F} _.
Arguments payload {F} _.
Arguments created_at {F} _.
Arguments updated_at {F} _.
Arguments deleted_at {F} _.

Definition to (schedule : Schedule.t) : t string :=
  {| id := Schedule.id schedule;
     name := Schedule.name schedule;
     state := Schedule.state schedule;
     starts_at := Schedule.startsAt schedule;
     frequency := number_str (Schedule.frequencyMs schedule) ++ " milliseconds";
     payload := Schedule.payload schedule;
     created_at := Schedule.createdAt schedule;
     updated_at := Schedule.updatedAt schedule;
     deleted_at := Schedule.deletedAt schedule |}.

Definition from (dbSchedule : t PostgresInterval) : Schedule.t :=
  {| Schedule.id := id dbSchedule;
     Schedule.name := name dbSchedule;
     Schedule.state := state dbSchedule;
     Schedule.startsAt := starts_at dbSchedule;
     Schedule.frequencyMs := postgresIntervalInMs (frequency dbSchedule);
     Schedule.payload := payload dbSchedule;
     Schedule.createdAt := created_at dbSchedule;
     Schedule.updatedAt := updated_at dbSchedule;
     Schedule.deletedAt := deleted_at dbSchedule |}.
End DbSchedule.

(** A stored row, as the storage engine hands it back. *)
Definition Row : Set := DbSchedule.t PostgresInterval.

(** ** The storage engine's [interval] type

    The engine is outside the repository; what the operations rely on is
    modelled here. An interval literal of the form ["<n> milliseconds"]
    (the only form the source writes) denotes [n] milliseconds; the
    engine keeps the time part of an interval as one count and prints it
    as hours, minutes, seconds and a fraction, which [postgres-interval]
    parses into the properties of that name, dropping those equal to
    zero. Any other literal is rejected. *)

(** The text before the first space, and the text after it. *)
Fixpoint split_space (s : string) : string * option string :=
  match s with
  | EmptyString => (EmptyString, None)
  | String c rest =>
      if Ascii.eqb c " "%char then (EmptyString, Some rest)
      else let (a, b) := split_space rest in (String c a, b)
  end.

Definition interval_in (literal : string) : option Z :=
  match split_space literal with
  | (digits, Some unit) =>
      if String.eqb unit "milliseconds" then
        match NilZero.int_of_string digits with
        | Some d => Some (Z.of_int d)
        | None => None
        end
      else None
  | (_, None) => None
  end.

Definition nonzero (v : Z) : option Z :=
  if v =? 0 then None else Some v.

Definition interval_out (ms : Z) : PostgresInterval :=
  {| years := None;
     months := None;
     days := None;
     hours := nonzero (Z.quot ms 3600000);
     minutes := nonzero (Z.quot (Z.rem ms 3600000) 60000);
     seconds := nonzero (Z.quot (Z.rem ms 60000) 1000);
     milliseconds := nonzero (Z.rem ms 1000) |}.

(** What an [interval] column holds after the literal was written to it. *)
Definition store_interval (literal : string) : option PostgresInterval :=
  option_map interval_out (interval_in literal).

(** ** Numbers as the machine has them

    Above, a number is an exact integer. A JavaScript number is a
    double: it holds every integer up to 2^53 and, beyond, only those
    that fit 53 significant bits; its arithmetic rounds to the nearest
    such value; a template literal prints it in decimal below 10^21 and
    in exponent form from there on. The storage engine keeps the time
    part of an interval as a 64-bit count of microseconds and rejects a
    literal that does not fit. This section models those limits, for
    the codec. *)

Module Float64.

(** The double nearest to the integer [x], ties to even (no infinity:
    the integers met here are far below 2^1024). *)
Definition round (x : Z) : Z :=
  let a := Z.abs x in
  if a <? 2 ^ 53 then x
  else
    let ulp := 2 ^ (Z.log2 a - 52) in
    let q := a / ulp in
    let r := a mod ulp in
    let q' := if 2 * r <? ulp then q
              else if ulp <? 2 * r then q + 1
              else if Z.even q then q else q + 1 in
    Z.sgn x * (q' * ulp).

Definition mul (a b : Z) : Z := round (a * b).
Definition add (a b : Z) : Z := round (a + b).

(** [Number.MAX_SAFE_INTEGER] *)
Definition MAX_SAFE_INTEGER : Z := 2 ^ 53 - 1.

(** The decimal digits of a positive integer. *)
Definition digits (a : Z) : string := NilZero.string_of_int (Z.to_int a).

(** The shortest decimal [s * 10^(len - k)], [s] of [k] digits, that
    reads back as the double [a] of [len] digits; of two, the nearer. *)
Fixpoint shortest (fuel : nat) (k len a : Z) : Z * Z :=
  match fuel with
  | O => (a, len)
  | S fuel' =>
      let unit := 10 ^ (len - k) in
      let lo := a / unit in
      let hi := lo + 1 in
      let ok_lo := round (lo * unit) =? a in
      let ok_hi := round (hi * unit) =? a in
      let nearer :=
        if a - lo * unit <? hi * unit - a then lo
        else if hi * unit - a <? a - lo * unit then hi
        else if Z.even lo then lo else hi in
      if ok_lo && ok_hi then (nearer, k)
      else if ok_lo then (lo, k)
      else if ok_hi then (hi, k)
      else shortest fuel' (k + 1) len a
  end.

(** [Number.prototype.toString] on a double that holds an integer, as a
    template literal applies it. *)
Definition toString (x : Z) : string :=
  let a := Z.abs x in
  let sign := if x <? 0 then "-" else "" in
  if a <? 10 ^ 21 then sign ++ digits a
  else
    let len := Z.of_nat (String.length (digits a)) in
    let (s, k) := shortest 21 1 len a in
    (* [s = 10^k] is the digit 1 one place higher *)
    let (s, e) := if s =? 10 ^ k then (1, len) else (s, len - 1) in
    let ds := digits s in
    sign ++ match ds with
            | String d EmptyString => String d EmptyString
            | String d rest => String d ("." ++ rest)
            | EmptyString => EmptyString
            end ++ "e+" ++ digits e.

(** [postgresIntervalInMs], in double arithmetic, left to right. *)
Definition postgresIntervalInMs (i : PostgresInterval) : Z :=
  add (add (add (add (add (add
    (mul (orZero (years i)) 31536000000)
    (mul (orZero (months i)) 2592000000))
    (mul (orZero (days i)) 86400000))
    (mul (orZero (hours i)) 3600000))
    (mul (orZero (minutes i)) 60000))
    (mul (orZero (seconds i)) 1000))
    (orZero (milliseconds i)).

End Float64.

(** [`${schedule.frequencyMs} milliseconds`] of [DbSchedule.to], on a
    double. *)
Definition interval_literal (frequencyMs : Z) : string :=
  Float64.toString frequencyMs ++ " milliseconds".

(** The largest count of microseconds an interval holds. *)
Definition INTERVAL_MAX_USEC : Z := 2 ^ 63 - 1.

(** What an [interval] column holds after the literal was written to
    it, when the engine accepts the literal: it must be of the form the
    source writes and fit the engine's range. *)
Definition store_interval_ranged (literal : string) : option PostgresInterval :=
  match interval_in literal with
  | Some ms =>
      if Z.abs ms * 1000 <=? INTERVAL_MAX_USEC then Some (interval_out ms)
      else None
  | None => None
  end.

(** ** The world the operations run in *)

(** A value thrown by the storage engine. [stringifyError] of
    [@nangohq/utils] is not among the sources: a thrown value is known
    here by the text that function gives for it. *)
Record Thrown : Set := Fault { stringifyError : string }.

(** What the engine does with the next statement it receives: carry it
    out, raise a fault (connectivity, timeout, ...), or complete at the
    protocol level without touching or returning any row. *)
Inductive Event : Set :=
| Proceed
| Raise (fault : Thrown)
| NoRows.

Record World : Set :=
  { schedules : list Row;      (* the [schedules] table, in the engine's order *)
    plan : list Event;         (* the engine's behaviour, one event a statement *)
    clock : Date;              (* what [new Date()] reads *)
    uuid : string }.           (* what [uuidv7()] returns *)

Definition next_event (w : World) : Event :=
  match plan w with
  | [] => Proceed
  | e :: _ => e
  end.

Definition consume (w : World) : World :=
  {| schedules := schedules w; plan := tl (plan w);
     clock := clock w; uuid := uuid w |}.

Definition with_schedules (rows : list Row) (w : World) : World :=
  {| schedules := rows; plan := plan w; clock := clock w; uuid := uuid w |}.

(** ** Computations: state, and normal or abrupt completion *)

Inductive Completion (A : Type) : Type :=
| Normal (a : A)
| Abrupt (e : Thrown).
Arguments Normal {A} a.
Arguments Abrupt {A} e.

Definition M (A : Type) : Type := World -> Completion A * World.

Definition ret {A} (a : A) : M A := fun w => (Normal a, w).

Definition bind {A B} (c : M A) (k : A -> M B) : M B :=
  fun w =>
    match c w with
    | (Normal a, w') => k a w'
    | (Abrupt e, w') => (Abrupt e, w')
    end.

(** [try { body } catch (err) { handler }] *)
Definition try_catch {A} (body : M A) (handler : Thrown -> M A) : M A :=
  fun w =>
    match body w with
    | (Normal a, w') => (Normal a, w')
    | (Abrupt e, w') => handler e w'
    end.

Declare Scope m_scope.
Delimit Scope m_scope with M.
Notation "x <- c ;; k" := (bind c (fun x => k))
  (at level 61, c at next level, right associativity) : m_scope.
Notation "'try' b 'catch' h" := (try_catch b h)
  (at level 61, b at next level, h at next level) : m_scope.
Local Open Scope m_scope.

Definition new_Date : M Date := fun w => (Normal (clock w), w).
Definition uuidv7 : M string := fun w => (Normal (uuid w), w).

(** ** Statements on the [schedules] table *)

(** One statement sent to the engine: [exec] is what it does to the
    table when the engine carries it out, [none] what the caller gets
    when no row comes back. *)
Definition statement {A} (none : A)
    (exec : list Row -> Completion (A * list Row)) : M A :=
  fun w =>
    match next_event w with
    | Raise fault => (Abrupt fault, consume w)
    | NoRows => (Normal none, consume w)
    | Proceed =>
        match exec (schedules w) with
        | Normal (a, rows) => (Normal a, with_schedules rows (consume w))
        | Abrupt fault => (Abrupt fault, consume w)
        end
    end.

Definition has_id (id : string) (r : Row) : bool :=
  String.eqb (DbSchedule.id r) id.

Definition with_frequency {F G : Set} (f : G) (r : DbSchedule.t F) : DbSchedule.t G :=
  {| DbSchedule.id := DbSchedule.id r;
     DbSchedule.name := DbSchedule.name r;
     DbSchedule.state := DbSchedule.state r;
     DbSchedule.starts_at := DbSchedule.starts_at r;
     DbSchedule.frequency := f;
     DbSchedule.payload := DbSchedule.payload r;
     DbSchedule.created_at := DbSchedule.created_at r;
     DbSchedule.updated_at := DbSchedule.updated_at r;
     DbSchedule.deleted_at := DbSchedule.deleted_at r |}.

(** [db.from(SCHEDULES_TABLE).insert(row).returning('*')]; [id] is the
    primary key of the table. *)
Definition insert_returning (row : DbSchedule.t string) : M (list Row) :=
  statement []
    (fun rows =>
       match store_interval (DbSchedule.frequency row) with
       | None => Abrupt (Fault "invalid input syntax for type interval")
       | Some i =>
           if existsb (has_id (DbSchedule.id row)) rows
           then Abrupt (Fault "duplicate key value violates unique constraint")
           else let stored := with_frequency i row in
                Normal ([stored], (rows ++ [stored])%list)
       end).

(** [db.from(SCHEDULES_TABLE).where('id', id).first()] *)
Definition where_id_first (id : string) : M (option Row) :=
  statement None (fun rows => Normal (find (has_id id) rows, rows)).

(** The object given to [.update(...)]: a column is written when its
    key is there. *)
Record Patch : Set :=
  { set_state : option ScheduleState;
    set_frequency : option string;
    set_payload : option JsonValue;
    set_updated_at : option Date;
    set_deleted_at : option (option Date) }.

Definition or_else {T} (x : option T) (d : T) : T :=
  match x with Some v => v | None => d end.

Definition apply_patch (p : Patch) (f : option PostgresInterval) (r : Row) : Row :=
  {| DbSchedule.id := DbSchedule.id r;
     DbSchedule.name := DbSchedule.name r;
     DbSchedule.state := or_else (set_state p) (DbSchedule.state r);
     DbSchedule.starts_at := DbSchedule.starts_at r;
     DbSchedule.frequency := or_else f (DbSchedule.frequency r);
     DbSchedule.payload := or_else (set_payload p) (DbSchedule.payload r);
     DbSchedule.created_at := DbSchedule.created_at r;
     DbSchedule.updated_at := or_else (set_updated_at p) (DbSchedule.updated_at r);
     DbSchedule.deleted_at := or_else (set_deleted_at p) (DbSchedule.deleted_at r) |}.

Definition update_rows (id : string) (p : Patch) (f : option PostgresInterval)
    (rows : list Row) : list Row :=
  map (fun r => if has_id id r then apply_patch p f r else r) rows.

(** [db.from(SCHEDULES_TABLE).where('id', id).update(patch).returning('*')] *)
Definition where_id_update_returning (id : string) (p : Patch) : M (list Row) :=
  statement []
    (fun rows =>
       match set_frequency p with
       | None =>
           let rows' := update_rows id p None rows in
           Normal (filter (has_id id) rows', rows')
       | Some literal =>
           match store_interval literal with
           | None => Abrupt (Fault "invalid input syntax for type interval")
           | Some i =>
               let rows' := update_rows id p (Some i) rows in
               Normal (filter (has_id id) rows', rows')
           end
       end).

(** The query [search] builds: [.limit(n)], then a [where] for each
    filter that was added. The engine rejects a negative limit when it
    analyses the query, before it reads any row. *)
Definition keeps (name : option string) (state : option ScheduleState) (r : Row) : bool :=
  match name with
  | Some n => String.eqb (DbSchedule.name r) n
  | None => true
  end &&
  match state with
  | Some s => state_eqb (DbSchedule.state r) s
  | None => true
  end.

Definition select_limit (limit : Z) (name : option string)
    (state : option ScheduleState) : M (list Row) :=
  fun w =>
    match next_event w with
    | Raise fault => (Abrupt fault, consume w)
    | _ =>
        if limit <? 0
        then (Abrupt (Fault "LIMIT must not be negative"), consume w)
        else statement []
               (fun rows =>
                  Normal (firstn (Z.to_nat limit)
                            (filter (keeps name state) rows), rows)) w
    end.

(** ** Persistence operations *)

(** [newSchedule] of [create]: [props] spread, then the fields [create]
    sets itself. *)
Definition newSchedule (props : ScheduleProps.t) (now : Date) (id : string)
    : Schedule.t :=
  {| Schedule.name := ScheduleProps.name props;
     Schedule.id := id;
     Schedule.state := STARTED;
     Schedule.payload := ScheduleProps.payload props;
     Schedule.startsAt := now;
     Schedule.frequencyMs := ScheduleProps.frequencyMs props;
     Schedule.createdAt := now;
     Schedule.updatedAt := now;
     Schedule.deletedAt := None |}.

Definition create (props : ScheduleProps.t) : M (Result Schedule.t) :=
  now <- new_Date ;;
  id <- uuidv7 ;;
  try (inserted <- insert_returning (DbSchedule.to (newSchedule props now id)) ;;
       match inserted with
       | [] =>
           ret (Err (NewError ("Error: no schedule '" ++ ScheduleProps.name props
                               ++ "' created")))
       | first :: _ => ret (Ok (DbSchedule.from first))
       end)
  catch (fun err =>
       ret (Err (NewError ("Error creating schedule '" ++ ScheduleProps.name props
                           ++ "': " ++ stringifyError err)))).

Definition get (scheduleId : string) : M (Result Schedule.t) :=
  try (schedule <- where_id_first scheduleId ;;
       match schedule with
       | None =>
           ret (Err (NewError ("Error: no schedule '" ++ scheduleId ++ "' found")))
       | Some row => ret (Ok (DbSchedule.from row))
       end)
  catch (fun err =>
       ret (Err (NewError ("Error getting schedule '" ++ scheduleId
                           ++ "': " ++ stringifyError err)))).

Definition transitionState (scheduleId : string) (to0 : ScheduleState)
    : M (Result Schedule.t) :=
  try (getSchedule <- get scheduleId ;;
       match getSchedule with
       | Err _ =>
           ret (Err (NewError ("Error: no schedule '" ++ scheduleId ++ "' found")))
       | Ok value =>
           match validate (Schedule.state value) to0 with
           | Err error => ret (Err error)
           | Ok _ =>
               now <- new_Date ;;
               updated <- where_id_update_returning scheduleId
                            {| set_state := Some to0;
                               set_frequency := None;
                               set_payload := None;
                               set_updated_at := Some now;
                               set_deleted_at := None |} ;;
               match updated with
               | [] =>
                   ret (Err (NewError ("Error: no schedule '" ++ scheduleId
                                       ++ "' updated")))
               | first :: _ => ret (Ok (DbSchedule.from first))
               end
           end
       end)
  catch (fun err =>
       ret (Err (NewError ("Error transitioning schedule '" ++ scheduleId
                           ++ "': " ++ stringifyError err)))).

(** [Partial<Pick<ScheduleProps, 'frequencyMs' | 'payload'>> & { id: string }] *)
Module UpdateProps.
Record t : Set :=
  { id : string;
    frequencyMs : option Z;
    payload : option JsonValue }.
End UpdateProps.

(** A filter or a column is taken from an optional parameter when the
    parameter is truthy. *)
Definition when_truthy {T} (truthy : T -> bool) (x : option T) : option T :=
  if truthy_opt truthy x then x else None.

(** [newValues] of [update]. *)
Definition newValues (props : UpdateProps.t) (now : Date) : Patch :=
  {| set_state := None;
     set_frequency :=
       option_map (fun n => number_str n ++ " milliseconds")
                  (when_truthy truthy_number (UpdateProps.frequencyMs props));
     set_payload := when_truthy truthy_json (UpdateProps.payload props);
     set_updated_at := Some now;
     set_deleted_at := None |}.

Definition update (props : UpdateProps.t) : M (Result Schedule.t) :=
  try (now <- new_Date ;;
       updated <- where_id_update_returning (UpdateProps.id props)
                    (newValues props now) ;;
       match updated with
       | [] =>
           ret (Err (NewError ("Error: no schedule '" ++ UpdateProps.id props
                               ++ "' updated")))
       | first :: _ => ret (Ok (DbSchedule.from first))
       end)
  catch (fun err =>
       ret (Err (NewError ("Error updating schedule '" ++ UpdateProps.id props
                           ++ "': " ++ stringifyError err)))).

Definition remove (id : string) : M (Result Schedule.t) :=
  try (now <- new_Date ;;
       deleted <- where_id_update_returning id
                    {| set_state := Some DELETED;
                       set_frequency := None;
                       set_payload := None;
                       set_updated_at := Some now;
                       set_deleted_at := Some (Some now) |} ;;
       match deleted with
       | [] => ret (Err (NewError ("Error: no schedule '" ++ id ++ "' deleted")))
       | first :: _ => ret (Ok (DbSchedule.from first))
       end)
  catch (fun err =>
       ret (Err (NewError ("Error deleting schedule '" ++ id
                           ++ "': " ++ stringifyError err)))).

Module SearchParams.
Record t : Set :=
  { name : option string;
    state : option ScheduleState;
    limit : Z }.
End SearchParams.

Definition search (params : SearchParams.t) : M (Result (list Schedule.t)) :=
  try (schedules <- select_limit (SearchParams.limit params)
                      (when_truthy truthy_string (SearchParams.name params))
                      (when_truthy (fun s => truthy_string (state_str s))
                                   (SearchParams.state params)) ;;
       ret (Ok (map DbSchedule.from schedules)))
  catch (fun err =>
       ret (Err (NewError ("Error searching schedules: " ++ stringifyError err)))).


(** ** Vocabulary of the properties *)

(** The legal pairs, as a predicate. *)
Definition legal (from0 to0 : ScheduleState) : bool :=
  match from0, to0 with
  | STARTED, PAUSED | STARTED, DELETED | PAUSED, STARTED => true
  | _, _ => false
  end.

(** The row a [where('id', id)] reaches first: what [get] decodes. *)
Definition lookup (id : string) (w : World) : option Row :=
  find (has_id id) (schedules w).

Fixpoint no_space (s : string) : Prop :=
  match s with
  | EmptyString => True
  | String c rest => Ascii.eqb c " "%char = false /\ no_space rest
  end.

(** The interval [update] stores, if it stores one. *)
Definition written_frequency (props : UpdateProps.t) : option PostgresInterval :=
  option_map interval_out (when_truthy truthy_number (UpdateProps.frequencyMs props)).

(** The objects [remove] and [transitionState] give to [.update(...)]. *)
Definition remove_values (now : Date) : Patch :=
  {| set_state := Some DELETED;
     set_frequency := None;
     set_payload := None;
     set_updated_at := Some now;
     set_deleted_at := Some (Some now) |}.

Definition transition_values (to0 : ScheduleState) (now : Date) : Patch :=
  {| set_state := Some to0;
     set_frequency := None;
     set_payload := None;
     set_updated_at := Some now;
     set_deleted_at := None |}.

(** A computation that completes normally, with a [Result]. *)
Definition returns {T} (c : M (Result T)) (w : World) : Prop :=
  exists res w', c w = (Normal res, w').

(** [hay.includes(needle)] *)
Fixpoint includes (needle hay : string) : bool :=
  String.prefix needle hay
  || match hay with
     | EmptyString => false
     | String _ rest => includes needle rest
     end.

(** A failure whose message keeps the cause of the fault and names the
    subject (the id or the name) of the call. *)
Definition rewrapped {T} (fault : Thrown) (subject : string)
    (c : Completion (Result T)) : Prop :=
  exists e,
    c = Normal (Err e)
    /\ includes (stringifyError fault) (message e) = true
    /\ includes subject (message e) = true.

(** The rows [search] is after: those of the name asked for, unless it
    is absent or empty, and of the state asked for, unless it is absent. *)
Definition matches (params : SearchParams.t) (r : Row) : bool :=
  match SearchParams.name params with
  | Some n => String.eqb n "" || String.eqb (DbSchedule.name r) n
  | None => true
  end
  && match SearchParams.state params with
     | Some s => state_eqb (DbSchedule.state r) s
     | None => true
     end.

(** The same engine, about to raise [fault] on its next statement. *)
Definition failing (fault : Thrown) (w : World) : World :=
  {| schedules := schedules w; plan := Raise fault :: plan w;
     clock := clock w; uuid := uuid w |}.

(** The same engine, about to carry one statement out and raise [fault]
    on the one after. *)
Definition failing_second (fault : Thrown) (w : World) : World :=
  {| schedules := schedules w; plan := Proceed :: Raise fault :: plan w;
     clock := clock w; uuid := uuid w |}.

(** ** Sample data

    Two stored schedules, ["a"] (STARTED) and ["b"] (PAUSED), on an
    engine that carries every statement out; an empty store; a store
    whose only schedule is already DELETED. *)

Definition sample_row (id name : string) (state : ScheduleState) : Row :=
  {| DbSchedule.id := id;
     DbSchedule.name := name;
     DbSchedule.state := state;
     DbSchedule.starts_at := 1000;
     DbSchedule.frequency := interval_out 90000000;
     DbSchedule.payload := JObject [("k", JNumber 1)];
     DbSchedule.created_at := 1000;
     DbSchedule.updated_at := 1000;
     DbSchedule.deleted_at := None |}.

Definition sample_world : World :=
  {| schedules := [sample_row "id-a" "a" STARTED; sample_row "id-b" "b" PAUSED];
     plan := [];
     clock := 2000;
     uuid := "id-c" |}.

Definition empty_world : World :=
  {| schedules := []; plan := []; clock := 1000; uuid := "id-a" |}.

Definition deleted_world : World :=
  {| schedules := [sample_row "id-a" "a" DELETED];
     plan := []; clock := 2000; uuid := "id-c" |}.

Definition sample_props : ScheduleProps.t :=
  {| ScheduleProps.name := "a";
     ScheduleProps.startsAt := 5;
     ScheduleProps.frequencyMs := 90000000;
     ScheduleProps.payload := JObject [("k", JNumber 1)] |}.

(** ** Stores the operations can reach *)

(** One call of a public operation. *)
Inductive Call : Set :=
| CallCreate (props : ScheduleProps.t)
| CallGet (scheduleId : string)
| CallTransitionState (scheduleId : string) (to0 : ScheduleState)
| CallUpdate (props : UpdateProps.t)
| CallRemove (id : string)
| CallSearch (params : SearchParams.t).

(** The world a call leaves behind. *)
Definition after (c : Call) (w : World) : World :=
  match c with
  | CallCreate props => snd (create props w)
  | CallGet scheduleId => snd (get scheduleId w)
  | CallTransitionState scheduleId to0 => snd (transitionState scheduleId to0 w)
  | CallUpdate props => snd (update props w)
  | CallRemove id => snd (remove id w)
  | CallSearch params => snd (search params w)
  end.

(** From an empty table, any sequence of calls that run one after
    another, each to its end before the next starts; between two calls
    the clock, the identifier generator and the engine's behaviour may
    be anything. Calls that overlap are the subject of [overlapping]
    below. *)
Inductive reachable : World -> Prop :=
| reach_empty plan0 clock0 uuid0 :
    reachable {| schedules := []; plan := plan0; clock := clock0; uuid := uuid0 |}
| reach_call w c :
    reachable w -> reachable (after c w)
| reach_env w plan0 clock0 uuid0 :
    reachable w ->
    reachable {| schedules := schedules w; plan := plan0;
                 clock := clock0; uuid := uuid0 |}.

(** A row whose [deleted_at] is set is DELETED. *)
Definition stamped_is_deleted (r : Row) : Prop :=
  DbSchedule.deleted_at r <> None -> DbSchedule.state r = DELETED.

(** [id] is a key of the table. *)
Definition unique_ids (rows : list Row) : Prop :=
  NoDup (map DbSchedule.id rows).

(** ** Calls that write *)

(** The four operations that write to the table; each returns the
    schedule it wrote. *)
Inductive Mutation : Set :=
| DoCreate (props : ScheduleProps.t)
| DoTransitionState (scheduleId : string) (to0 : ScheduleState)
| DoUpdate (props : UpdateProps.t)
| DoRemove (id : string).

Definition perform (m : Mutation) : M (Result Schedule.t) :=
  match m with
  | DoCreate props => create props
  | DoTransitionState scheduleId to0 => transitionState scheduleId to0
  | DoUpdate props => update props
  | DoRemove id => remove id
  end.

(** The columns no call is meant to write. *)
Definition same_identity (r r' : Row) : Prop :=
  DbSchedule.id r' = DbSchedule.id r
  /\ DbSchedule.name r' = DbSchedule.name r
  /\ DbSchedule.starts_at r' = DbSchedule.starts_at r
  /\ DbSchedule.created_at r' = DbSchedule.created_at r.

(** A computation's outcome that is a failure [Result]. *)
Definition isErr_completion {T} (c : Completion (Result T)) : bool :=
  match c with
  | Normal (Err _) => true
  | _ => false
  end.

(** ** Calls that overlap

    Each operation sends one statement to the engine, except
    [transitionState], which awaits its read and then its write: other
    calls may run between the two. *)

(** [transitionState] up to its write: the read and the validation. It
    gives the transition to write, or the failure the operation
    returns. *)
Definition transitionState_read (scheduleId : string) (to0 : ScheduleState)
    : M (Result ScheduleStateTransition) :=
  getSchedule <- get scheduleId ;;
  match getSchedule with
  | Err _ =>
      ret (Err (NewError ("Error: no schedule '" ++ scheduleId ++ "' found")))
  | Ok value => ret (validate (Schedule.state value) to0)
  end.

(** [transitionState] from its write on, under the [catch] of the
    operation. *)
Definition transitionState_write (scheduleId : string) (to0 : ScheduleState)
    : M (Result Schedule.t) :=
  try (now <- new_Date ;;
       updated <- where_id_update_returning scheduleId
                    {| set_state := Some to0;
                       set_frequency := None;
                       set_payload := None;
                       set_updated_at := Some now;
                       set_deleted_at := None |} ;;
       match updated with
       | [] =>
           ret (Err (NewError ("Error: no schedule '" ++ scheduleId
                               ++ "' updated")))
       | first :: _ => ret (Ok (DbSchedule.from first))
       end)
  catch (fun err =>
       ret (Err (NewError ("Error transitioning schedule '" ++ scheduleId
                           ++ "': " ++ stringifyError err)))).

(** A [transitionState] that has read and validated, and has not
    written yet. *)
Definition Pending : Set := (string * ScheduleState)%type.

(** The stores reached from an empty table by calls that may overlap:
    whole calls, and the read and the write of a [transitionState] with
    anything in between. *)
Inductive overlapping : World -> list Pending -> Prop :=
| over_empty plan0 clock0 uuid0 :
    overlapping {| schedules := []; plan := plan0;
                   clock := clock0; uuid := uuid0 |} []
| over_call w pending c :
    overlapping w pending -> overlapping (after c w) pending
| over_env w pending plan0 clock0 uuid0 :
    overlapping w pending ->
    overlapping {| schedules := schedules w; plan := plan0;
                   clock := clock0; uuid := uuid0 |} pending
| over_read w pending scheduleId to0 transition :
    overlapping w pending ->
    fst (transitionState_read scheduleId to0 w) = Normal (Ok transition) ->
    overlapping (snd (transitionState_read scheduleId to0 w))
      ((scheduleId, to0) :: pending)
| over_write w before later scheduleId to0 :
    overlapping w (before ++ (scheduleId, to0) :: later) ->
    overlapping (snd (transitionState_write scheduleId to0 w))
      (before ++ later).

(** * Properties *)

(** ** The transition validator *)

(** C3. [validate (from, to)] returns the matched transition exactly on
    STARTED->PAUSED, STARTED->DELETED and PAUSED->STARTED; on every other
    pair it returns the failure whose message names both endpoints. In
    particular every self-transition, every edge out of DELETED and
    PAUSED->DELETED fail. *)
Theorem validate_table (from0 to0 : ScheduleState) :
  validate from0 to0 =
    match from0, to0 with
    | STARTED, PAUSED | STARTED, DELETED | PAUSED, STARTED =>
        Ok {| from := from0; to := to0 |}
    | _, _ =>
        Err (NewError ("Invalid state transition from " ++ state_str from0
                       ++ " to " ++ state_str to0))
    end
  /\ isErr (validate from0 from0) = true
  /\ isErr (validate DELETED to0) = true
  /\ validate PAUSED DELETED
     = Err (NewError "Invalid state transition from PAUSED to DELETED").
Proof.
  repeat split; destruct from0; try destruct to0; reflexivity.
Qed.

Lemma validate_legal from0 to0 :
  legal from0 to0 = true ->
  validate from0 to0 = Ok {| from := from0; to := to0 |}.
Proof. destruct from0, to0; simpl; intros H; try discriminate H; reflexivity. Qed.

Lemma validate_illegal from0 to0 :
  legal from0 to0 = false ->
  validate from0 to0 =
    Err (NewError ("Invalid state transition from " ++ state_str from0
                   ++ " to " ++ state_str to0)).
Proof. destruct from0, to0; simpl; intros H; try discriminate H; reflexivity. Qed.

(** ** The interval codec

    First on exact integers, the model the operations above use; then
    on machine numbers, with the limits of doubles and of the engine. *)

Lemma split_space_append s t :
  no_space s -> split_space (s ++ String " " t) = (s, Some t).
Proof.
  induction s as [|c s IH]; simpl.
  - reflexivity.
  - intros [Hc Hs]. rewrite Hc, (IH Hs). reflexivity.
Qed.

Lemma digits_no_space d : no_space (NilEmpty.string_of_uint d).
Proof. induction d; simpl; auto. Qed.

Lemma number_str_no_space n : no_space (number_str n).
Proof.
  unfold number_str.
  destruct (Z.to_int n) as [d|d]; simpl.
  - destruct d; simpl; auto using digits_no_space.
  - split; [reflexivity|].
    destruct d; simpl; auto using digits_no_space.
Qed.

Lemma number_str_parses n :
  NilZero.int_of_string (number_str n) = Some (Z.to_int n).
Proof.
  unfold number_str. apply NilZero.isi; destruct n; simpl; try discriminate;
    intros [= H]; exact (DecimalPos.Unsigned.to_uint_nonnil _ H).
Qed.

(** The engine reads the literal the source writes as the number it was
    written from. *)
Lemma interval_in_literal n :
  interval_in (number_str n ++ " milliseconds") = Some n.
Proof.
  unfold interval_in.
  change (number_str n ++ " milliseconds")
    with (number_str n ++ String " " "milliseconds").
  rewrite (split_space_append _ _ (number_str_no_space n)).
  simpl. rewrite number_str_parses, DecimalZ.of_to. reflexivity.
Qed.

Lemma orZero_nonzero v : orZero (nonzero v) = v.
Proof.
  unfold nonzero. destruct (Z.eqb_spec v 0); simpl; congruence.
Qed.

(** Reading back the hours, minutes, seconds and milliseconds of a count
    gives the count. *)
Lemma interval_out_ms ms : postgresIntervalInMs (interval_out ms) = ms.
Proof.
  unfold postgresIntervalInMs, interval_out; simpl.
  rewrite !orZero_nonzero.
  Z.quot_rem_to_equations. lia.
Qed.

Lemma store_literal n :
  store_interval (number_str n ++ " milliseconds") = Some (interval_out n).
Proof. unfold store_interval. rewrite interval_in_literal. reflexivity. Qed.

(** *** The codec on machine numbers *)

Lemma round_small x : Z.abs x < 2 ^ 53 -> Float64.round x = x.
Proof.
  intros Hx. unfold Float64.round.
  destruct (Z.ltb_spec (Z.abs x) (2 ^ 53)); [reflexivity | lia].
Qed.

(** A multiple of [2^k] below [2^(53+k)] fits 53 significant bits. *)
Lemma round_multiple k x :
  0 <= k -> 0 <= x -> (2 ^ k | x) -> x < 2 ^ (53 + k) ->
  Float64.round x = x.
Proof.
  intros Hk Hx Hdiv Hlt. unfold Float64.round.
  rewrite (Z.abs_eq x Hx).
  destruct (Z.ltb_spec x (2 ^ 53)) as [|Hbig]; [reflexivity|].
  assert (0 < x) as Hpos by (pose proof (Z.pow_pos_nonneg 2 53); lia).
  assert (53 <= Z.log2 x) as Hlo.
  { change 53 with (Z.log2 (2 ^ 53)). now apply Z.log2_le_mono. }
  assert (Z.log2 x < 53 + k) as Hhi.
  { apply Z.log2_lt_pow2; assumption. }
  set (e := Z.log2 x - 52) in *.
  assert (0 < 2 ^ e) as Hulp by (apply Z.pow_pos_nonneg; lia).
  assert ((2 ^ e | x)) as Hdiv'.
  { apply Z.divide_trans with (2 ^ k); [|exact Hdiv].
    exists (2 ^ (k - e)). rewrite <- Z.pow_add_r by lia. f_equal. lia. }
  assert (x mod 2 ^ e = 0) as Hr.
  { apply Z.mod_divide; [lia | exact Hdiv']. }
  rewrite Hr. cbn [Z.mul].
  destruct (Z.ltb_spec 0 (2 ^ e)); [|lia].
  rewrite (Z.sgn_pos x Hpos).
  pose proof (Z.div_mod x (2 ^ e) ltac:(lia)) as Hdm. lia.
Qed.

Lemma toString_decimal n :
  Z.abs n < 10 ^ 21 -> 0 <= n -> Float64.toString n = number_str n.
Proof.
  intros Hn H0. unfold Float64.toString.
  rewrite (Z.abs_eq n H0) in *.
  destruct (Z.ltb_spec n 0); [lia|].
  destruct (Z.ltb_spec n (10 ^ 21)); [reflexivity | lia].
Qed.

Lemma store_ranged_literal n :
  0 <= n -> n <= 9223372036854775 ->
  store_interval_ranged (interval_literal n) = Some (interval_out n).
Proof.
  intros H0 Hmax. unfold store_interval_ranged, interval_literal.
  rewrite toString_decimal by (rewrite ?Z.abs_eq by lia; lia).
  rewrite interval_in_literal.
  destruct (Z.leb_spec (Z.abs n * 1000) INTERVAL_MAX_USEC) as [|Hout];
    [reflexivity|].
  unfold INTERVAL_MAX_USEC in Hout. lia.
Qed.

Lemma add_exact k a b :
  0 <= k -> 0 <= a + b -> (2 ^ k | a + b) -> a + b < 2 ^ (53 + k) ->
  Float64.add a b = a + b.
Proof. intros. unfold Float64.add. now apply (round_multiple k). Qed.

Lemma mul_exact k a b :
  0 <= k -> 0 <= a * b -> (2 ^ k | a * b) -> a * b < 2 ^ (53 + k) ->
  Float64.mul a b = a * b.
Proof. intros. unfold Float64.mul. now apply (round_multiple k). Qed.

(** Reading back, in double arithmetic, the hours, minutes, seconds and
    milliseconds of a count the engine holds gives the count, when the
    count is itself a double. *)
Lemma float_interval_out_ms n :
  0 <= n -> n <= 9223372036854775 -> Float64.round n = n ->
  Float64.postgresIntervalInMs (interval_out n) = n.
Proof.
  intros H0 Hmax Hdouble.
  unfold Float64.postgresIntervalInMs, interval_out; cbn [years months days
    hours minutes seconds milliseconds orZero].
  rewrite !orZero_nonzero.
  set (h := Z.quot n 3600000).
  set (mi := Z.quot (Z.rem n 3600000) 60000).
  set (s := Z.quot (Z.rem n 60000) 1000).
  set (ms := Z.rem n 1000).
  assert (0 <= h /\ 0 <= mi /\ 0 <= s /\ 0 <= ms
          /\ h * 3600000 + mi * 60000 + s * 1000 + ms = n) as (Hh & Hmi & Hs & Hms & Hsum).
  { unfold h, mi, s, ms. Z.quot_rem_to_equations. lia. }
  assert (2 ^ (53 + 3) = 72057594037927936) as Hpow by reflexivity.
  change (0 * 31536000000) with 0. change (0 * 2592000000) with 0.
  change (0 * 86400000) with 0.
  change (Float64.mul 0 31536000000) with 0.
  change (Float64.mul 0 2592000000) with 0.
  change (Float64.mul 0 86400000) with 0.
  change (Float64.add 0 0) with 0. change (Float64.add 0 0) with 0.
  rewrite (mul_exact 3 h 3600000); try lia;
    [| exists (h * 450000); cbn; lia].
  rewrite (mul_exact 3 mi 60000); try lia;
    [| exists (mi * 7500); cbn; lia].
  rewrite (mul_exact 3 s 1000); try lia;
    [| exists (s * 125); cbn; lia].
  rewrite (add_exact 3 0 (h * 3600000)); try lia;
    [| exists (h * 450000); cbn; lia].
  rewrite (add_exact 3 _ (mi * 60000)); try lia;
    [| exists (h * 450000 + mi * 7500); cbn; lia].
  rewrite (add_exact 3 _ (s * 1000)); try lia;
    [| exists (h * 450000 + mi * 7500 + s * 125); cbn; lia].
  unfold Float64.add.
  replace (0 + h * 3600000 + mi * 60000 + s * 1000 + ms) with n by lia.
  exact Hdouble.
Qed.

(** C5, as the code has it. The interval codec round-trips on the
    integers a number holds exactly, up to the engine's range: for every
    integer [n] with [0 <= n <= 9223372036854775] that is a double (every
    integer up to [Number.MAX_SAFE_INTEGER] is), the literal
    [DbSchedule.to] writes for [frequencyMs = n] is the decimal
    ["<n> milliseconds"], the storage engine accepts it, and
    [postgresIntervalInMs] of the structured interval it hands back, in
    double arithmetic, is [n]; a whole schedule comes back from its row
    unchanged. 90000000 comes back as 90000000 and 0 as 0. *)
Theorem interval_round_trip_in_range (n : Z)
    (Hlo : 0 <= n) (Hhi : n <= 9223372036854775)
    (Hdouble : Float64.round n = n) :
  option_map Float64.postgresIntervalInMs
    (store_interval_ranged (interval_literal n)) = Some n
  /\ (forall id name state startsAt payload createdAt updatedAt deletedAt,
        let s := {| Schedule.id := id; Schedule.name := name;
                    Schedule.state := state; Schedule.startsAt := startsAt;
                    Schedule.frequencyMs := n; Schedule.payload := payload;
                    Schedule.createdAt := createdAt;
                    Schedule.updatedAt := updatedAt;
                    Schedule.deletedAt := deletedAt |} in
        DbSchedule.frequency (DbSchedule.to s) = interval_literal n
        /\ exists i,
             store_interval_ranged (DbSchedule.frequency (DbSchedule.to s))
             = Some i
             /\ Float64.postgresIntervalInMs i = postgresIntervalInMs i
             /\ DbSchedule.from (with_frequency i (DbSchedule.to s)) = s)
  /\ (forall m, 0 <= m -> m <= Float64.MAX_SAFE_INTEGER -> Float64.round m = m)
  /\ option_map Float64.postgresIntervalInMs
       (store_interval_ranged (interval_literal 90000000)) = Some 90000000
  /\ option_map Float64.postgresIntervalInMs
       (store_interval_ranged (interval_literal 0)) = Some 0.
Proof.
  assert (interval_literal n = number_str n ++ " milliseconds") as Hlit.
  { unfold interval_literal.
    now rewrite toString_decimal by (rewrite ?Z.abs_eq by lia; lia). }
  split; [|split; [|split; [|split]]].
  - rewrite (store_ranged_literal n Hlo Hhi). cbn [option_map].
    now rewrite float_interval_out_ms.
  - intros id name state startsAt payload createdAt updatedAt deletedAt s.
    split; [symmetry; exact Hlit|].
    exists (interval_out n).
    change (DbSchedule.frequency (DbSchedule.to s))
      with (number_str n ++ " milliseconds").
    rewrite <- Hlit. split; [now apply store_ranged_literal|].
    split.
    + now rewrite float_interval_out_ms, interval_out_ms.
    + unfold DbSchedule.from, with_frequency, DbSchedule.to, s; simpl.
      now rewrite interval_out_ms.
  - intros m Hm Hsafe. apply round_small.
    unfold Float64.MAX_SAFE_INTEGER in Hsafe. rewrite Z.abs_eq by lia. lia.
  - vm_compute. reflexivity.
  - vm_compute. reflexivity.
Qed.

Lemma interval_round_trip_in_range_witness :
  0 <= 90000000 /\ 90000000 <= 9223372036854775
  /\ Float64.round 90000000 = 90000000
  /\ option_map Float64.postgresIntervalInMs
       (store_interval_ranged (interval_literal 90000000)) = Some 90000000.
Proof.
  split; [lia|]. split; [lia|]. split; [reflexivity|].
  exact (proj1 (interval_round_trip_in_range 90000000
                  ltac:(lia) ltac:(lia) eq_refl)).
Defined.

(** C5 as stated fails past the engine's range: 10^16 is a non-negative
    integer that a number holds exactly, the literal written for it is
    ["10000000000000000 milliseconds"], and the engine rejects it: no
    interval comes back to decode. *)
Lemma interval_literal_out_of_range :
  0 <= 10 ^ 16
  /\ Float64.round (10 ^ 16) = 10 ^ 16
  /\ interval_literal (10 ^ 16) = "10000000000000000 milliseconds"
  /\ store_interval_ranged (interval_literal (10 ^ 16)) = None
  /\ option_map Float64.postgresIntervalInMs
       (store_interval_ranged (interval_literal (10 ^ 16)))
     <> Some (10 ^ 16).
Proof.
  split; [lia|]. split; [vm_compute; reflexivity|].
  split; [vm_compute; reflexivity|].
  split; [vm_compute; reflexivity|].
  vm_compute. discriminate.
Qed.

(** ** Rows and patches *)

Lemma has_id_apply_patch id p f r :
  has_id id (apply_patch p f r) = has_id id r.
Proof. reflexivity. Qed.

Lemma filter_update_rows id p f rows :
  filter (has_id id) (update_rows id p f rows)
  = map (apply_patch p f) (filter (has_id id) rows).
Proof.
  induction rows as [|r rows IH]; [reflexivity|].
  cbn [update_rows map filter].
  destruct (has_id id r) eqn:E.
  - cbn [filter map]. rewrite has_id_apply_patch, E. cbn [map].
    f_equal. exact IH.
  - rewrite E. exact IH.
Qed.

Lemma find_update_rows id p f rows :
  find (has_id id) (update_rows id p f rows)
  = option_map (apply_patch p f) (find (has_id id) rows).
Proof.
  induction rows as [|r rows IH]; [reflexivity|].
  cbn [update_rows map find].
  destruct (has_id id r) eqn:E.
  - rewrite has_id_apply_patch, E. reflexivity.
  - rewrite E. exact IH.
Qed.

Lemma find_update_rows_other id id' p f rows :
  id' <> id ->
  find (has_id id') (update_rows id p f rows) = find (has_id id') rows.
Proof.
  intros Hne.
  induction rows as [|r rows IH]; [reflexivity|].
  cbn [update_rows map find].
  destruct (has_id id r) eqn:E.
  - rewrite has_id_apply_patch.
    assert (has_id id' r = false) as ->.
    { unfold has_id in *. apply String.eqb_eq in E.
      apply String.eqb_neq. congruence. }
    exact IH.
  - destruct (has_id id' r); [reflexivity | exact IH].
Qed.

Lemma update_rows_absent id p f rows :
  find (has_id id) rows = None -> update_rows id p f rows = rows.
Proof.
  intros Hnone. unfold update_rows.
  rewrite <- (map_id rows) at 2.
  apply map_ext_in. intros r Hin.
  destruct (has_id id r) eqn:E; [|reflexivity].
  exfalso. apply (find_none _ _ Hnone) in Hin. congruence.
Qed.

Lemma first_of_filter {A} (p : A -> bool) (l : list A) :
  match filter p l with [] => None | x :: _ => Some x end = find p l.
Proof.
  induction l as [|a l IH]; simpl; [reflexivity|].
  destruct (p a); [reflexivity | exact IH].
Qed.

Lemma first_of_updated id p f rows :
  match filter (has_id id) (update_rows id p f rows) with
  | [] => None
  | x :: _ => Some x
  end = option_map (apply_patch p f) (find (has_id id) rows).
Proof. rewrite first_of_filter. apply find_update_rows. Qed.

(** ** One statement, by the engine's next event *)

Lemma update_statement_proceed id p w :
  next_event w = Proceed ->
  set_frequency p = None ->
  where_id_update_returning id p w
  = (Normal (filter (has_id id) (update_rows id p None (schedules w))),
     with_schedules (update_rows id p None (schedules w)) (consume w)).
Proof.
  intros Hev Hf. unfold where_id_update_returning, statement.
  rewrite Hev, Hf. reflexivity.
Qed.

Lemma update_statement_proceed_literal id p n w :
  next_event w = Proceed ->
  set_frequency p = Some (number_str n ++ " milliseconds") ->
  where_id_update_returning id p w
  = (Normal (filter (has_id id)
               (update_rows id p (Some (interval_out n)) (schedules w))),
     with_schedules (update_rows id p (Some (interval_out n)) (schedules w))
       (consume w)).
Proof.
  intros Hev Hf. unfold where_id_update_returning, statement.
  rewrite Hev, Hf, store_literal. reflexivity.
Qed.

Lemma statement_raise {A} (none : A) exec w fault :
  next_event w = Raise fault ->
  statement none exec w = (Abrupt fault, consume w).
Proof. intros Hev. unfold statement. now rewrite Hev. Qed.

Lemma statement_norows {A} (none : A) exec w :
  next_event w = NoRows ->
  statement none exec w = (Normal none, consume w).
Proof. intros Hev. unfold statement. now rewrite Hev. Qed.

(** [update], when the engine carries the statement out. *)
Lemma update_run props w :
  next_event w = Proceed ->
  let p := newValues props (clock w) in
  let f := written_frequency props in
  update props w
  = (Normal
       match lookup (UpdateProps.id props) w with
       | None =>
           Err (NewError ("Error: no schedule '" ++ UpdateProps.id props
                          ++ "' updated"))
       | Some r => Ok (DbSchedule.from (apply_patch p f r))
       end,
     with_schedules (update_rows (UpdateProps.id props) p f (schedules w))
       (consume w)).
Proof.
  intros Hev p f. unfold update, try_catch, bind, new_Date.
  assert (where_id_update_returning (UpdateProps.id props) p w
          = (Normal (filter (has_id (UpdateProps.id props))
                       (update_rows (UpdateProps.id props) p f (schedules w))),
             with_schedules
               (update_rows (UpdateProps.id props) p f (schedules w))
               (consume w))) as Hst.
  { unfold f, written_frequency.
    destruct (when_truthy truthy_number (UpdateProps.frequencyMs props))
      as [n|] eqn:E.
    - apply update_statement_proceed_literal; [exact Hev|].
      unfold p, newValues; simpl. now rewrite E.
    - apply update_statement_proceed; [exact Hev|].
      unfold p, newValues; simpl. now rewrite E. }
  fold p. rewrite Hst.
  pose proof (first_of_updated (UpdateProps.id props) p f (schedules w)) as Hfirst.
  unfold lookup.
  destruct (filter (has_id (UpdateProps.id props))
              (update_rows (UpdateProps.id props) p f (schedules w)));
    destruct (find (has_id (UpdateProps.id props)) (schedules w));
    simpl in Hfirst; try discriminate Hfirst; unfold ret.
  - reflexivity.
  - injection Hfirst as ->. reflexivity.
Qed.

(** ** [update] *)

(** C6. [update] writes only the supplied fields: a field that is absent
    keeps its stored value (so [update(id, {payload: X})] leaves the
    frequency as it was), a supplied field is either written or left as
    it was, nothing else of the row changes except [updated_at], which is
    set to the time of the call on every call (also one that supplies
    neither field), and no other row changes. With no row of that id the
    call fails. *)
Theorem update_partial (props : UpdateProps.t) (w : World)
    (Hev : next_event w = Proceed) :
  let id := UpdateProps.id props in
  let w' := snd (update props w) in
  match lookup id w with
  | None =>
      fst (update props w)
      = Normal (Err (NewError ("Error: no schedule '" ++ id ++ "' updated")))
      /\ schedules w' = schedules w
  | Some r =>
      exists r',
        fst (update props w) = Normal (Ok (DbSchedule.from r'))
        /\ lookup id w' = Some r'
        /\ DbSchedule.updated_at r' = clock w
        /\ match UpdateProps.frequencyMs props with
           | None => DbSchedule.frequency r' = DbSchedule.frequency r
           | Some n =>
               (DbSchedule.frequency r' = DbSchedule.frequency r
                \/ postgresIntervalInMs (DbSchedule.frequency r') = n)
               /\ (truthy_number n = true ->
                   postgresIntervalInMs (DbSchedule.frequency r') = n)
           end
        /\ match UpdateProps.payload props with
           | None => DbSchedule.payload r' = DbSchedule.payload r
           | Some v =>
               (DbSchedule.payload r' = DbSchedule.payload r
                \/ DbSchedule.payload r' = v)
               /\ (truthy_json v = true -> DbSchedule.payload r' = v)
           end
        /\ DbSchedule.id r' = DbSchedule.id r
        /\ DbSchedule.name r' = DbSchedule.name r
        /\ DbSchedule.state r' = DbSchedule.state r
        /\ DbSchedule.starts_at r' = DbSchedule.starts_at r
        /\ DbSchedule.created_at r' = DbSchedule.created_at r
        /\ DbSchedule.deleted_at r' = DbSchedule.deleted_at r
        /\ (forall other, other <> id -> lookup other w' = lookup other w)
  end.
Proof.
  intros id w'. unfold w'. rewrite (update_run props w Hev).
  cbn [fst snd]. fold id.
  destruct (lookup id w) as [r|] eqn:Hrow.
  - exists (apply_patch (newValues props (clock w)) (written_frequency props) r).
    split; [reflexivity|].
    split.
    { unfold lookup in *. cbn [schedules with_schedules].
      rewrite find_update_rows, Hrow. reflexivity. }
    split; [reflexivity|].
    split.
    { unfold written_frequency, when_truthy.
      destruct (UpdateProps.frequencyMs props) as [n|]; cbn.
      - destruct (truthy_number n); cbn.
        + split; [right|intros _]; apply interval_out_ms.
        + split; [left; reflexivity | discriminate].
      - reflexivity. }
    split.
    { cbn. unfold when_truthy.
      destruct (UpdateProps.payload props) as [v|]; cbn.
      - destruct (truthy_json v); cbn.
        + split; [right|]; reflexivity.
        + split; [left; reflexivity | discriminate].
      - reflexivity. }
    repeat (split; [reflexivity|]).
    intros other Hne. unfold lookup. cbn [schedules with_schedules].
    now apply find_update_rows_other.
  - split; [reflexivity|].
    cbn [schedules with_schedules]. now apply update_rows_absent.
Qed.

Lemma update_partial_witness :
  next_event sample_world = Proceed
  /\ exists r',
       fst (update {| UpdateProps.id := "id-a";
                      UpdateProps.frequencyMs := None;
                      UpdateProps.payload := Some (JString "x") |} sample_world)
       = Normal (Ok (DbSchedule.from r'))
       /\ DbSchedule.updated_at r' = 2000
       /\ DbSchedule.frequency r' = interval_out 90000000.
Proof.
  split; [reflexivity|].
  destruct (update_partial
              {| UpdateProps.id := "id-a";
                 UpdateProps.frequencyMs := None;
                 UpdateProps.payload := Some (JString "x") |}
              sample_world eq_refl)
    as (r' & Hres & _ & Hupd & Hfreq & _).
  exists r'. repeat split; assumption.
Defined.

(** C10. [update] decides the presence of a field by truthiness: a call
    with [frequencyMs = 0] does what the call without [frequencyMs] does,
    and a call whose payload is [null], [false], [0] or the empty string
    does what the call without payload does. On a row of that id such a
    call succeeds, leaves the column as stored and sets [updated_at] to
    the time of the call. *)
Theorem update_falsy_is_absent (id : string) (frequencyMs : option Z)
    (payload : option JsonValue) (w : World) (r : Row)
    (Hev : next_event w = Proceed) (Hrow : lookup id w = Some r) :
  let zero_frequency :=
    {| UpdateProps.id := id; UpdateProps.frequencyMs := Some 0;
       UpdateProps.payload := payload |} in
  let falsy_payload v :=
    {| UpdateProps.id := id; UpdateProps.frequencyMs := frequencyMs;
       UpdateProps.payload := Some v |} in
  (update zero_frequency w
   = update {| UpdateProps.id := id; UpdateProps.frequencyMs := None;
               UpdateProps.payload := payload |} w
   /\ exists r',
        fst (update zero_frequency w) = Normal (Ok (DbSchedule.from r'))
        /\ lookup id (snd (update zero_frequency w)) = Some r'
        /\ DbSchedule.frequency r' = DbSchedule.frequency r
        /\ DbSchedule.updated_at r' = clock w)
  /\ forall v, In v [JNull; JBool false; JNumber 0; JString ""] ->
       update (falsy_payload v) w
       = update {| UpdateProps.id := id; UpdateProps.frequencyMs := frequencyMs;
                   UpdateProps.payload := None |} w
       /\ exists r',
            fst (update (falsy_payload v) w) = Normal (Ok (DbSchedule.from r'))
            /\ lookup id (snd (update (falsy_payload v) w)) = Some r'
            /\ DbSchedule.payload r' = DbSchedule.payload r
            /\ DbSchedule.updated_at r' = clock w.
Proof.
  intros zero_frequency falsy_payload. split.
  - split; [reflexivity|].
    rewrite (update_run zero_frequency w Hev).
    cbn [fst snd UpdateProps.id zero_frequency]. rewrite Hrow.
    eexists. split; [reflexivity|]. split.
    { unfold lookup in *. cbn [schedules with_schedules].
      rewrite find_update_rows, Hrow. reflexivity. }
    split; reflexivity.
  - intros v Hv. split.
    + cbn in Hv.
      destruct Hv as [<-|[<-|[<-|[<-|[]]]]]; reflexivity.
    + rewrite (update_run (falsy_payload v) w Hev).
      cbn [fst snd UpdateProps.id falsy_payload]. rewrite Hrow.
      eexists. split; [reflexivity|]. split.
      { unfold lookup in *. cbn [schedules with_schedules].
        rewrite find_update_rows, Hrow. reflexivity. }
      split; [|reflexivity].
      cbn in Hv.
      destruct Hv as [<-|[<-|[<-|[<-|[]]]]]; reflexivity.
Qed.

Lemma update_falsy_is_absent_witness :
  next_event sample_world = Proceed
  /\ lookup "id-a" sample_world = Some (sample_row "id-a" "a" STARTED)
  /\ update {| UpdateProps.id := "id-a"; UpdateProps.frequencyMs := Some 0;
               UpdateProps.payload := Some JNull |} sample_world
     = update {| UpdateProps.id := "id-a"; UpdateProps.frequencyMs := None;
                 UpdateProps.payload := Some JNull |} sample_world.
Proof.
  split; [reflexivity|]. split; [reflexivity|].
  exact (proj1 (proj1 (update_falsy_is_absent "id-a" None (Some JNull)
                         sample_world (sample_row "id-a" "a" STARTED)
                         eq_refl eq_refl))).
Defined.

(** ** [get] and [remove] *)

Lemma get_run scheduleId w :
  next_event w = Proceed ->
  get scheduleId w
  = (Normal
       match lookup scheduleId w with
       | None =>
           Err (NewError ("Error: no schedule '" ++ scheduleId ++ "' found"))
       | Some row => Ok (DbSchedule.from row)
       end,
     consume w).
Proof.
  intros Hev. unfold get, try_catch, bind, where_id_first, statement, lookup.
  rewrite Hev.
  destruct (find (has_id scheduleId) (schedules w)); reflexivity.
Qed.

Lemma remove_run id w :
  next_event w = Proceed ->
  let p := remove_values (clock w) in
  remove id w
  = (Normal
       match lookup id w with
       | None => Err (NewError ("Error: no schedule '" ++ id ++ "' deleted"))
       | Some r => Ok (DbSchedule.from (apply_patch p None r))
       end,
     with_schedules (update_rows id p None (schedules w)) (consume w)).
Proof.
  intros Hev p. unfold remove, try_catch, bind, new_Date.
  change {| set_state := Some DELETED; set_frequency := None;
            set_payload := None; set_updated_at := Some (clock w);
            set_deleted_at := Some (Some (clock w)) |} with p.
  rewrite (update_statement_proceed id p w Hev eq_refl).
  pose proof (first_of_updated id p None (schedules w)) as Hfirst.
  unfold lookup.
  destruct (filter (has_id id) (update_rows id p None (schedules w)));
    destruct (find (has_id id) (schedules w));
    simpl in Hfirst; try discriminate Hfirst; unfold ret.
  - reflexivity.
  - injection Hfirst as ->. reflexivity.
Qed.

(** C7. For an id with a stored row, whatever the state of the row (also
    DELETED, from which the validator allows no move), [remove] succeeds
    and sets [state = DELETED], [deleted_at = now], [updated_at = now],
    keeping the other columns; a [get] of that id afterwards returns that
    row, DELETED with a non-null [deletedAt]. With no row of that id, and
    only then, [remove] fails. *)
Theorem remove_unconditional (id : string) (w : World)
    (Hev : next_event w = Proceed)
    (Hev' : next_event (consume w) = Proceed) :
  let w' := snd (remove id w) in
  match lookup id w with
  | None =>
      fst (remove id w)
      = Normal (Err (NewError ("Error: no schedule '" ++ id ++ "' deleted")))
  | Some r =>
      exists r',
        fst (remove id w) = Normal (Ok (DbSchedule.from r'))
        /\ DbSchedule.state r' = DELETED
        /\ DbSchedule.deleted_at r' = Some (clock w)
        /\ DbSchedule.updated_at r' = clock w
        /\ DbSchedule.id r' = DbSchedule.id r
        /\ DbSchedule.name r' = DbSchedule.name r
        /\ DbSchedule.starts_at r' = DbSchedule.starts_at r
        /\ DbSchedule.frequency r' = DbSchedule.frequency r
        /\ DbSchedule.payload r' = DbSchedule.payload r
        /\ DbSchedule.created_at r' = DbSchedule.created_at r
        /\ lookup id w' = Some r'
        /\ fst (get id w') = Normal (Ok (DbSchedule.from r'))
        /\ Schedule.state (DbSchedule.from r') = DELETED
        /\ Schedule.deletedAt (DbSchedule.from r') <> None
  end.
Proof.
  intros w'. unfold w'. rewrite (remove_run id w Hev). cbn [fst snd].
  destruct (lookup id w) as [r|] eqn:Hrow; [|reflexivity].
  exists (apply_patch (remove_values (clock w)) None r).
  repeat (split; [reflexivity|]).
  assert (lookup id
            (with_schedules
               (update_rows id (remove_values (clock w)) None (schedules w))
               (consume w))
          = Some (apply_patch (remove_values (clock w)) None r)) as Hafter.
  { unfold lookup in *. cbn [schedules with_schedules].
    rewrite find_update_rows, Hrow. reflexivity. }
  split; [exact Hafter|].
  split.
  { rewrite get_run by exact Hev'. cbn [fst]. now rewrite Hafter. }
  split; [reflexivity | discriminate].
Qed.

Lemma remove_unconditional_witness :
  next_event deleted_world = Proceed
  /\ next_event (consume deleted_world) = Proceed
  /\ exists r',
       fst (remove "id-a" deleted_world) = Normal (Ok (DbSchedule.from r'))
       /\ DbSchedule.state r' = DELETED
       /\ DbSchedule.deleted_at r' = Some 2000.
Proof.
  split; [reflexivity|]. split; [reflexivity|].
  destruct (remove_unconditional "id-a" deleted_world eq_refl eq_refl)
    as (r' & Hres & Hstate & Hdel & _).
  exists r'. repeat split; assumption.
Defined.

(** ** [transitionState] *)

(** [get] never completes abruptly, and never touches the table. *)
Lemma get_total scheduleId w :
  exists res,
    get scheduleId w = (Normal res, consume w)
    /\ (next_event w = Proceed ->
        res = match lookup scheduleId w with
              | None =>
                  Err (NewError ("Error: no schedule '" ++ scheduleId
                                 ++ "' found"))
              | Some row => Ok (DbSchedule.from row)
              end)
    /\ (next_event w <> Proceed -> isErr res = true).
Proof.
  destruct (next_event w) as [|fault|] eqn:Hev.
  - rewrite get_run by exact Hev. eexists. split; [reflexivity|].
    split; [reflexivity | congruence].
  - unfold get, try_catch, bind, where_id_first.
    rewrite (statement_raise _ _ _ _ Hev). eexists.
    split; [reflexivity|]. split; [discriminate | reflexivity].
  - unfold get, try_catch, bind, where_id_first.
    rewrite (statement_norows _ _ _ Hev). eexists.
    split; [reflexivity|]. split; [discriminate | reflexivity].
Qed.

(** [transitionState] stops before its write when [get] fails, and when
    the validator rejects. *)
Lemma transitionState_not_found scheduleId to0 w e :
  get scheduleId w = (Normal (Err e), consume w) ->
  transitionState scheduleId to0 w
  = (Normal (Err (NewError ("Error: no schedule '" ++ scheduleId ++ "' found"))),
     consume w).
Proof.
  intros Hget. unfold transitionState, try_catch, bind.
  rewrite Hget. reflexivity.
Qed.

Lemma transitionState_rejected scheduleId to0 w value error :
  get scheduleId w = (Normal (Ok value), consume w) ->
  validate (Schedule.state value) to0 = Err error ->
  transitionState scheduleId to0 w = (Normal (Err error), consume w).
Proof.
  intros Hget Hval. unfold transitionState, try_catch, bind.
  rewrite Hget, Hval. reflexivity.
Qed.

(** C2. On a stored schedule in state [from], a target [to] with
    [(from, to)] outside STARTED->PAUSED, STARTED->DELETED and
    PAUSED->STARTED makes [transitionState] fail and leaves the table as
    it was, whatever the engine does; when the engine carries the read
    out, the failure is the validator's, naming both states. *)
Theorem transitionState_illegal (scheduleId : string) (to0 : ScheduleState)
    (w : World) (r : Row)
    (Hrow : lookup scheduleId w = Some r)
    (H1 : (DbSchedule.state r, to0) <> (STARTED, PAUSED))
    (H2 : (DbSchedule.state r, to0) <> (STARTED, DELETED))
    (H3 : (DbSchedule.state r, to0) <> (PAUSED, STARTED)) :
  schedules (snd (transitionState scheduleId to0 w)) = schedules w
  /\ (exists e, fst (transitionState scheduleId to0 w) = Normal (Err e))
  /\ (next_event w = Proceed ->
      fst (transitionState scheduleId to0 w)
      = Normal (Err (NewError ("Invalid state transition from "
                               ++ state_str (DbSchedule.state r)
                               ++ " to " ++ state_str to0)))).
Proof.
  assert (legal (DbSchedule.state r) to0 = false) as Hill.
  { destruct (DbSchedule.state r), to0; try reflexivity; congruence. }
  destruct (get_total scheduleId w) as (res & Hget & Hok & Hbad).
  destruct (next_event w) as [|fault|] eqn:Hev.
  - specialize (Hok eq_refl). rewrite Hrow in Hok. subst res.
    rewrite (transitionState_rejected _ to0 _ _ _ Hget
               (validate_illegal _ _ Hill)).
    cbn [fst snd]. split; [reflexivity|].
    split; [eexists|intros _]; reflexivity.
  - specialize (Hbad ltac:(discriminate)).
    destruct res as [value|e]; [discriminate Hbad|].
    rewrite (transitionState_not_found _ to0 _ _ Hget). cbn [fst snd].
    split; [reflexivity|]. split; [eexists; reflexivity | discriminate].
  - specialize (Hbad ltac:(discriminate)).
    destruct res as [value|e]; [discriminate Hbad|].
    rewrite (transitionState_not_found _ to0 _ _ Hget). cbn [fst snd].
    split; [reflexivity|]. split; [eexists; reflexivity | discriminate].
Qed.

Lemma transitionState_illegal_witness :
  lookup "id-b" sample_world = Some (sample_row "id-b" "b" PAUSED)
  /\ fst (transitionState "id-b" DELETED sample_world)
     = Normal (Err (NewError "Invalid state transition from PAUSED to DELETED"))
  /\ schedules (snd (transitionState "id-b" DELETED sample_world))
     = schedules sample_world.
Proof.
  split; [reflexivity|].
  destruct (transitionState_illegal "id-b" DELETED sample_world
              (sample_row "id-b" "b" PAUSED) eq_refl
              ltac:(discriminate) ltac:(discriminate) ltac:(discriminate))
    as (Hsame & _ & Hmsg).
  split; [exact (Hmsg eq_refl) | exact Hsame].
Defined.

(** ** [create] *)

Lemma from_stored_to s :
  DbSchedule.from
    (with_frequency (interval_out (Schedule.frequencyMs s)) (DbSchedule.to s))
  = s.
Proof.
  destruct s. unfold DbSchedule.from, with_frequency, DbSchedule.to; simpl.
  now rewrite interval_out_ms.
Qed.

Lemma create_run props w :
  let s := newSchedule props (clock w) (uuid w) in
  let stored := with_frequency (interval_out (Schedule.frequencyMs s))
                               (DbSchedule.to s) in
  create props w
  = match next_event w with
    | Proceed =>
        if existsb (has_id (uuid w)) (schedules w)
        then (Normal (Err (NewError
                ("Error creating schedule '" ++ ScheduleProps.name props
                 ++ "': duplicate key value violates unique constraint"))),
              consume w)
        else (Normal (Ok s),
              with_schedules (schedules w ++ [stored])%list (consume w))
    | Raise fault =>
        (Normal (Err (NewError
           ("Error creating schedule '" ++ ScheduleProps.name props
            ++ "': " ++ stringifyError fault))),
         consume w)
    | NoRows =>
        (Normal (Err (NewError
           ("Error: no schedule '" ++ ScheduleProps.name props ++ "' created"))),
         consume w)
    end.
Proof.
  intros s stored.
  unfold create, try_catch, bind, new_Date, uuidv7, insert_returning, statement.
  fold s.
  destruct (next_event w) as [|fault|]; try reflexivity.
  change (DbSchedule.frequency (DbSchedule.to s))
    with (number_str (Schedule.frequencyMs s) ++ " milliseconds").
  rewrite store_literal.
  change (DbSchedule.id (DbSchedule.to s)) with (uuid w).
  destruct (existsb (has_id (uuid w)) (schedules w)); [reflexivity|].
  fold stored. unfold ret. f_equal. f_equal. f_equal.
  unfold stored. apply from_stored_to.
Qed.

Lemma find_appended id (rows : list Row) (r : Row) :
  existsb (has_id id) rows = false ->
  has_id id r = true ->
  find (has_id id) (rows ++ [r]) = Some r.
Proof.
  intros Hfresh Hid. induction rows as [|x rows IH]; cbn [app find].
  - now rewrite Hid.
  - cbn [existsb] in Hfresh. apply orb_false_iff in Hfresh as [Hx Hrest].
    rewrite Hx. exact (IH Hrest).
Qed.

(** C4. Whatever [props] holds (its [startsAt] included), a successful
    [create] returns a schedule with [state = STARTED], [deletedAt =
    null] and [startsAt = createdAt = updatedAt = now]. [create] does
    succeed, and stores the row, when the engine carries the insert out
    and the identifier is new; it returns the creation failure when the
    engine reports no inserted row, and the rewrapped fault when the
    engine raises one. *)
Theorem create_started (props : ScheduleProps.t) (w : World) :
  let now := clock w in
  let w' := snd (create props w) in
  match fst (create props w) with
  | Normal (Ok s) =>
      Schedule.state s = STARTED
      /\ Schedule.deletedAt s = None
      /\ Schedule.startsAt s = now
      /\ Schedule.createdAt s = now
      /\ Schedule.updatedAt s = now
  | Normal (Err _) => True
  | Abrupt _ => False
  end
  /\ match next_event w with
     | Proceed =>
         if existsb (has_id (uuid w)) (schedules w)
         then fst (create props w)
              = Normal (Err (NewError
                  ("Error creating schedule '" ++ ScheduleProps.name props
                   ++ "': duplicate key value violates unique constraint")))
              /\ schedules w' = schedules w
         else fst (create props w)
              = Normal (Ok (newSchedule props now (uuid w)))
              /\ exists row,
                   lookup (uuid w) w' = Some row
                   /\ DbSchedule.from row = newSchedule props now (uuid w)
     | NoRows =>
         fst (create props w)
         = Normal (Err (NewError
             ("Error: no schedule '" ++ ScheduleProps.name props ++ "' created")))
         /\ schedules w' = schedules w
     | Raise fault =>
         fst (create props w)
         = Normal (Err (NewError
             ("Error creating schedule '" ++ ScheduleProps.name props
              ++ "': " ++ stringifyError fault)))
         /\ schedules w' = schedules w
     end.
Proof.
  intros now w'. unfold w'. rewrite create_run.
  destruct (next_event w) as [|fault|]; cbn [fst snd];
    try (split; [exact I | split; reflexivity]).
  destruct (existsb (has_id (uuid w)) (schedules w)) eqn:Hfresh; cbn [fst snd].
  - split; [exact I | split; reflexivity].
  - split; [repeat split; reflexivity|].
    split; [reflexivity|].
    eexists. split.
    + unfold lookup. cbn [schedules with_schedules].
      apply find_appended; [exact Hfresh|].
      unfold has_id. cbn. apply String.eqb_refl.
    + apply from_stored_to.
Qed.

(** ** [transitionState] on a legal pair *)

Lemma transitionState_run scheduleId to0 w r :
  next_event w = Proceed ->
  lookup scheduleId w = Some r ->
  legal (DbSchedule.state r) to0 = true ->
  let p := transition_values to0 (clock w) in
  transitionState scheduleId to0 w
  = match next_event (consume w) with
    | Proceed =>
        (Normal (Ok (DbSchedule.from (apply_patch p None r))),
         with_schedules (update_rows scheduleId p None (schedules w))
           (consume (consume w)))
    | Raise fault =>
        (Normal (Err (NewError
           ("Error transitioning schedule '" ++ scheduleId ++ "': "
            ++ stringifyError fault))),
         consume (consume w))
    | NoRows =>
        (Normal (Err (NewError
           ("Error: no schedule '" ++ scheduleId ++ "' updated"))),
         consume (consume w))
    end.
Proof.
  intros Hev Hrow Hlegal p.
  unfold transitionState, try_catch, bind.
  rewrite (get_run scheduleId w Hev), Hrow.
  cbn [DbSchedule.from Schedule.state].
  rewrite (validate_legal _ _ Hlegal).
  unfold new_Date.
  change (clock (consume w)) with (clock w).
  change {| set_state := Some to0; set_frequency := None;
            set_payload := None; set_updated_at := Some (clock w);
            set_deleted_at := None |} with p.
  destruct (next_event (consume w)) as [|fault|] eqn:Hev'.
  - rewrite (update_statement_proceed scheduleId p (consume w) Hev' eq_refl).
    change (schedules (consume w)) with (schedules w).
    pose proof (first_of_updated scheduleId p None (schedules w)) as Hfirst.
    unfold lookup in Hrow. rewrite Hrow in Hfirst.
    destruct (filter (has_id scheduleId)
                (update_rows scheduleId p None (schedules w)));
      simpl in Hfirst; [discriminate Hfirst|].
    injection Hfirst as ->. reflexivity.
  - unfold where_id_update_returning.
    rewrite (statement_raise _ _ _ _ Hev'). reflexivity.
  - unfold where_id_update_returning.
    rewrite (statement_norows _ _ _ Hev'). reflexivity.
Qed.

(** ** The delete stamp *)

(** A legal move writes the state and [updated_at], nothing else: the
    row keeps the [deleted_at] it had, also when the move is to DELETED. *)
Lemma transitionState_keeps_deleted_at scheduleId to0 w r :
  next_event w = Proceed ->
  next_event (consume w) = Proceed ->
  lookup scheduleId w = Some r ->
  legal (DbSchedule.state r) to0 = true ->
  exists r',
    fst (transitionState scheduleId to0 w) = Normal (Ok (DbSchedule.from r'))
    /\ lookup scheduleId (snd (transitionState scheduleId to0 w)) = Some r'
    /\ DbSchedule.state r' = to0
    /\ DbSchedule.updated_at r' = clock w
    /\ DbSchedule.deleted_at r' = DbSchedule.deleted_at r.
Proof.
  intros Hev Hev' Hrow Hlegal.
  rewrite (transitionState_run scheduleId to0 w r Hev Hrow Hlegal), Hev'.
  cbn [fst snd]. eexists. split; [reflexivity|]. split.
  - unfold lookup in *. cbn [schedules with_schedules].
    rewrite find_update_rows, Hrow. reflexivity.
  - repeat split.
Qed.

(** C1, at an input where it fails. A schedule is created and moved to
    DELETED by [transitionState], a legal move of the transition table:
    the store reached holds a schedule that is DELETED with [deletedAt]
    still null, where [remove] on the same schedule stamps it. *)
Theorem transitionState_deleted_leaves_deletedAt_null :
  reachable (after (CallTransitionState "id-a" DELETED)
               (after (CallCreate sample_props) empty_world))
  /\ (exists s w',
     bind (create sample_props)
       (fun _ => bind (transitionState "id-a" DELETED)
                   (fun _ => get "id-a")) empty_world
     = (Normal (Ok s), w')
     /\ Schedule.state s = DELETED
     /\ Schedule.deletedAt s = None)
  /\ (exists s w',
        bind (create sample_props)
          (fun _ => bind (remove "id-a") (fun _ => get "id-a")) empty_world
        = (Normal (Ok s), w')
        /\ Schedule.state s = DELETED
        /\ Schedule.deletedAt s = Some 1000).
Proof.
  split; [do 2 apply reach_call; apply reach_empty|].
  split; eexists; eexists; (split; [vm_compute; reflexivity|]);
    split; reflexivity.
Qed.

(** ** Faults stay inside the operations *)

Lemma try_catch_returns {T} (body : M (Result T)) (handler : Thrown -> Result T) w :
  returns (try_catch body (fun err => ret (handler err))) w.
Proof.
  unfold returns, try_catch, ret.
  destruct (body w) as [[res|err] w']; eexists; eexists; reflexivity.
Qed.

Lemma create_returns props w : returns (create props) w.
Proof.
  unfold create, bind, new_Date, uuidv7.
  apply (try_catch_returns _
           (fun err => Err (NewError ("Error creating schedule '"
                                      ++ ScheduleProps.name props ++ "': "
                                      ++ stringifyError err)))).
Qed.

Lemma get_returns scheduleId w : returns (get scheduleId) w.
Proof.
  apply (try_catch_returns _
           (fun err => Err (NewError ("Error getting schedule '" ++ scheduleId
                                      ++ "': " ++ stringifyError err)))).
Qed.

Lemma transitionState_returns scheduleId to0 w :
  returns (transitionState scheduleId to0) w.
Proof.
  apply (try_catch_returns _
           (fun err => Err (NewError ("Error transitioning schedule '"
                                      ++ scheduleId ++ "': "
                                      ++ stringifyError err)))).
Qed.

Lemma update_returns props w : returns (update props) w.
Proof.
  apply (try_catch_returns _
           (fun err => Err (NewError ("Error updating schedule '"
                                      ++ UpdateProps.id props ++ "': "
                                      ++ stringifyError err)))).
Qed.

Lemma remove_returns id w : returns (remove id) w.
Proof.
  apply (try_catch_returns _
           (fun err => Err (NewError ("Error deleting schedule '" ++ id
                                      ++ "': " ++ stringifyError err)))).
Qed.

Lemma search_returns params w : returns (search params) w.
Proof.
  apply (try_catch_returns _
           (fun err => Err (NewError ("Error searching schedules: "
                                      ++ stringifyError err)))).
Qed.

(** C8, as the code has it. Every operation completes normally with a
    [Result], whatever its input and whatever the engine does: no fault
    leaves an operation as a thrown value. A fault the engine raises on
    the statement of [create], [get], [update] or [remove] comes back as
    a failure naming the operation, the name or id, and the cause; on the
    query of [search], as a failure naming the operation and the cause;
    on the write of [transitionState], as a failure naming the operation,
    the id and the cause. A fault on the read [transitionState] starts
    with comes back as the not-found failure naming the id. None of these
    changes the table. *)
Theorem faults_become_failures (fault : Thrown) (w : World) :
  ((forall props, returns (create props) w)
   /\ (forall id, returns (get id) w)
   /\ (forall id to0, returns (transitionState id to0) w)
   /\ (forall props, returns (update props) w)
   /\ (forall id, returns (remove id) w)
   /\ (forall params, returns (search params) w))
  /\ (forall props,
        create props (failing fault w)
        = (Normal (Err (NewError
             ("Error creating schedule '" ++ ScheduleProps.name props ++ "': "
              ++ stringifyError fault))),
           consume (failing fault w)))
  /\ (forall id,
        get id (failing fault w)
        = (Normal (Err (NewError
             ("Error getting schedule '" ++ id ++ "': "
              ++ stringifyError fault))),
           consume (failing fault w)))
  /\ (forall props,
        update props (failing fault w)
        = (Normal (Err (NewError
             ("Error updating schedule '" ++ UpdateProps.id props ++ "': "
              ++ stringifyError fault))),
           consume (failing fault w)))
  /\ (forall id,
        remove id (failing fault w)
        = (Normal (Err (NewError
             ("Error deleting schedule '" ++ id ++ "': "
              ++ stringifyError fault))),
           consume (failing fault w)))
  /\ (forall params,
        search params (failing fault w)
        = (Normal (Err (NewError
             ("Error searching schedules: " ++ stringifyError fault))),
           consume (failing fault w)))
  /\ (forall id to0,
        transitionState id to0 (failing fault w)
        = (Normal (Err (NewError ("Error: no schedule '" ++ id ++ "' found"))),
           consume (failing fault w)))
  /\ (forall id to0,
        match lookup id w with
        | Some r =>
            if legal (DbSchedule.state r) to0
            then transitionState id to0 (failing_second fault w)
                 = (Normal (Err (NewError
                      ("Error transitioning schedule '" ++ id ++ "': "
                       ++ stringifyError fault))),
                    consume (consume (failing_second fault w)))
            else True
        | None => True
        end)
  /\ schedules (consume (failing fault w)) = schedules w
  /\ schedules (consume (consume (failing_second fault w))) = schedules w.
Proof.
  split.
  { repeat split; intros.
    - apply create_returns.
    - apply get_returns.
    - apply transitionState_returns.
    - apply update_returns.
    - apply remove_returns.
    - apply search_returns. }
  repeat split; try reflexivity.
  intros id to0.
  destruct (lookup id w) as [r|] eqn:Hrow; [|exact I].
  destruct (legal (DbSchedule.state r) to0) eqn:Hlegal; [|exact I].
  rewrite (transitionState_run id to0 (failing_second fault w) r
             eq_refl Hrow Hlegal).
  reflexivity.
Qed.

(** C8 as stated fails where [transitionState] reads: the engine raises
    "connection refused" on that read, and the failure that comes back
    does not keep the cause. *)
Lemma transitionState_read_fault_loses_cause :
  ~ rewrapped (Fault "connection refused") "id-a"
      (fst (transitionState "id-a" PAUSED
              (failing (Fault "connection refused") sample_world))).
Proof.
  intros (e & Hres & Hcause & _).
  injection Hres as <-. vm_compute in Hcause. discriminate Hcause.
Qed.

(** ** [search] *)

Lemma in_firstn {A} (n : nat) (l : list A) (x : A) :
  In x (firstn n l) -> In x l.
Proof.
  revert l. induction n as [|n IH]; intros [|a l]; cbn; try tauto.
  intros [->|Hin]; [left; reflexivity | right; exact (IH l Hin)].
Qed.

Lemma keeps_matches params r :
  keeps (when_truthy truthy_string (SearchParams.name params))
        (when_truthy (fun s => truthy_string (state_str s))
                     (SearchParams.state params)) r
  = matches params r.
Proof.
  unfold keeps, matches, when_truthy.
  destruct (SearchParams.name params) as [[|c n]|];
    destruct (SearchParams.state params) as [[| |]|]; reflexivity.
Qed.

Lemma search_run params w :
  search params w
  = (match next_event w with
     | Raise fault =>
         Normal (Err (NewError
           ("Error searching schedules: " ++ stringifyError fault)))
     | ev =>
         if SearchParams.limit params <? 0
         then Normal (Err (NewError
                "Error searching schedules: LIMIT must not be negative"))
         else match ev with
              | NoRows => Normal (Ok [])
              | _ =>
                  Normal (Ok (map DbSchedule.from
                    (firstn (Z.to_nat (SearchParams.limit params))
                       (filter (matches params) (schedules w)))))
              end
     end,
     consume w).
Proof.
  unfold search, try_catch, bind, select_limit, statement.
  rewrite (filter_ext _ _ (keeps_matches params)).
  destruct (next_event w) as [|fault|]; try reflexivity;
    destruct (SearchParams.limit params <? 0); reflexivity.
Qed.

(** C9, as the code has it. [search] never changes the table. When it
    succeeds it returns at most [limit] schedules, each the decoding of a
    stored row that has the name asked for, if a non-empty name was
    given, and the state asked for, if a state was given; an empty name
    is no filter. When the engine carries the query out and [limit] is
    not negative, [search] succeeds with the first [limit] such rows, so
    with the empty list when there is none. It fails only when the
    engine raises a fault or rejects the query (a negative limit). *)
Theorem search_filters (params : SearchParams.t) (w : World) :
  let limit := SearchParams.limit params in
  schedules (snd (search params w)) = schedules w
  /\ match fst (search params w) with
     | Normal (Ok found) =>
         Z.of_nat (List.length found) <= limit
         /\ (forall s, In s found ->
               exists r,
                 In r (schedules w) /\ s = DbSchedule.from r
                 /\ match SearchParams.name params with
                    | Some n => n = "" \/ Schedule.name s = n
                    | None => True
                    end
                 /\ match SearchParams.state params with
                    | Some st => Schedule.state s = st
                    | None => True
                    end)
     | Normal (Err e) =>
         (exists fault,
            next_event w = Raise fault
            /\ message e = "Error searching schedules: " ++ stringifyError fault)
         \/ (limit < 0
             /\ message e
                = "Error searching schedules: LIMIT must not be negative")
     | Abrupt _ => False
     end
  /\ match next_event w with
     | Proceed =>
         if limit <? 0 then True
         else exists found,
                fst (search params w) = Normal (Ok found)
                /\ found = map DbSchedule.from
                             (firstn (Z.to_nat limit)
                                (filter (matches params) (schedules w)))
                /\ List.length found
                   = Nat.min (Z.to_nat limit)
                       (List.length (filter (matches params) (schedules w)))
                /\ (filter (matches params) (schedules w) = [] -> found = [])
     | NoRows =>
         if limit <? 0 then True
         else fst (search params w) = Normal (Ok [])
     | Raise _ => True
     end.
Proof.
  intros limit. rewrite search_run. cbn [fst snd]. fold limit.
  split; [reflexivity|].
  destruct (next_event w) as [|fault|].
  - destruct (Z.ltb_spec limit 0) as [Hneg|Hpos].
    + split; [|exact I]. right. split; [exact Hneg | reflexivity].
    + split.
      * split.
        { rewrite length_map, length_firstn. lia. }
        intros s Hin. apply in_map_iff in Hin as (r & <- & Hr).
        apply in_firstn in Hr. apply filter_In in Hr as [Hr Hm].
        exists r. split; [exact Hr|]. split; [reflexivity|].
        unfold matches in Hm. apply andb_true_iff in Hm as [Hname Hstate].
        split.
        -- destruct (SearchParams.name params) as [n|]; [|exact I].
           apply orb_true_iff in Hname as [He|He]; apply String.eqb_eq in He;
             [left | right]; assumption.
        -- destruct (SearchParams.state params) as [st|]; [|exact I].
           cbn. destruct (DbSchedule.state r), st;
             try discriminate Hstate; reflexivity.
      * eexists. split; [reflexivity|]. split; [reflexivity|].
        split.
        { now rewrite length_map, length_firstn. }
        intros ->. now rewrite firstn_nil.
  - split; [|exact I]. left. exists fault. split; reflexivity.
  - destruct (Z.ltb_spec limit 0) as [Hneg|Hpos].
    + split; [|exact I]. right. split; [exact Hneg | reflexivity].
    + split; [|reflexivity]. split; [cbn; lia|]. intros s [].
Qed.

(** C9 as stated fails on an empty name: [search({name: '', limit: 10})]
    returns the schedule named ["a"]. *)
Lemma search_empty_name_is_no_filter :
  exists found s,
    fst (search {| SearchParams.name := Some "";
                   SearchParams.state := None;
                   SearchParams.limit := 10 |} sample_world)
    = Normal (Ok found)
    /\ In s found
    /\ Schedule.name s = "a"
    /\ Schedule.name s <> "".
Proof.
  eexists. eexists. split; [vm_compute; reflexivity|].
  split; [left; reflexivity|]. split; [reflexivity | discriminate].
Qed.

(** ** What holds of every store reached by calls one after another

    The half of the delete-stamp invariant the operations keep when
    each call runs to its end before the next starts: no row has
    [deleted_at] set while its state is not DELETED. *)

Lemma update_rows_ids id p f rows :
  map DbSchedule.id (update_rows id p f rows) = map DbSchedule.id rows.
Proof.
  unfold update_rows. rewrite map_map. apply map_ext.
  intros r. destruct (has_id id r); reflexivity.
Qed.

Lemma same_id_same_row (rows : list Row) (x y : Row) :
  unique_ids rows -> In x rows -> In y rows ->
  DbSchedule.id x = DbSchedule.id y -> x = y.
Proof.
  unfold unique_ids. induction rows as [|r rows IH]; cbn [map In]; [tauto|].
  intros Hnd Hx Hy Hid. inversion Hnd as [|? ? Hnotin Hnd']; subst.
  destruct Hx as [->|Hx], Hy as [->|Hy].
  - reflexivity.
  - exfalso. apply Hnotin. rewrite Hid. now apply in_map.
  - exfalso. apply Hnotin. rewrite <- Hid. now apply in_map.
  - now apply IH.
Qed.

Lemma update_rows_keeps (P : Row -> Prop) id p f rows :
  Forall P rows ->
  (forall r, In r rows -> has_id id r = true -> P r -> P (apply_patch p f r)) ->
  Forall P (update_rows id p f rows).
Proof.
  intros Hall Hstep. unfold update_rows. apply Forall_forall.
  intros x Hin. apply in_map_iff in Hin as (r & <- & Hr).
  pose proof (proj1 (Forall_forall P rows) Hall r Hr) as HP.
  destruct (has_id id r) eqn:E; [now apply Hstep | exact HP].
Qed.

(** The table each operation leaves, whatever the engine does. *)
Lemma update_table props w :
  schedules (snd (update props w)) = schedules w
  \/ schedules (snd (update props w))
     = update_rows (UpdateProps.id props) (newValues props (clock w))
         (written_frequency props) (schedules w).
Proof.
  destruct (next_event w) as [|fault|] eqn:Hev.
  - right. now rewrite (update_run props w Hev).
  - left. unfold update, try_catch, bind, new_Date, where_id_update_returning.
    now rewrite (statement_raise _ _ _ _ Hev).
  - left. unfold update, try_catch, bind, new_Date, where_id_update_returning.
    now rewrite (statement_norows _ _ _ Hev).
Qed.

Lemma remove_table id w :
  schedules (snd (remove id w)) = schedules w
  \/ schedules (snd (remove id w))
     = update_rows id (remove_values (clock w)) None (schedules w).
Proof.
  destruct (next_event w) as [|fault|] eqn:Hev.
  - right. now rewrite (remove_run id w Hev).
  - left. unfold remove, try_catch, bind, new_Date, where_id_update_returning.
    now rewrite (statement_raise _ _ _ _ Hev).
  - left. unfold remove, try_catch, bind, new_Date, where_id_update_returning.
    now rewrite (statement_norows _ _ _ Hev).
Qed.

Lemma transitionState_table scheduleId to0 w :
  schedules (snd (transitionState scheduleId to0 w)) = schedules w
  \/ exists r,
       lookup scheduleId w = Some r
       /\ legal (DbSchedule.state r) to0 = true
       /\ schedules (snd (transitionState scheduleId to0 w))
          = update_rows scheduleId (transition_values to0 (clock w)) None
              (schedules w).
Proof.
  destruct (get_total scheduleId w) as (res & Hget & Hok & Hbad).
  destruct res as [value|e].
  2:{ left. now rewrite (transitionState_not_found _ to0 _ _ Hget). }
  destruct (next_event w) as [|fault|] eqn:Hev;
    try (specialize (Hbad ltac:(discriminate)); discriminate Hbad).
  specialize (Hok eq_refl).
  destruct (lookup scheduleId w) as [r|] eqn:Hrow; [|discriminate Hok].
  injection Hok as ->.
  destruct (legal (DbSchedule.state r) to0) eqn:Hlegal.
  - rewrite (transitionState_run scheduleId to0 w r Hev Hrow Hlegal).
    destruct (next_event (consume w)); cbn [snd];
      [right; exists r; repeat split; assumption | left; reflexivity ..].
  - left.
    now rewrite (transitionState_rejected _ to0 _ _ _ Hget
                   (validate_illegal _ _ Hlegal)).
Qed.

Lemma create_table props w :
  schedules (snd (create props w)) = schedules w
  \/ (existsb (has_id (uuid w)) (schedules w) = false
      /\ exists stored,
           schedules (snd (create props w)) = (schedules w ++ [stored])%list
           /\ DbSchedule.id stored = uuid w
           /\ DbSchedule.state stored = STARTED
           /\ DbSchedule.deleted_at stored = None).
Proof.
  rewrite create_run.
  destruct (next_event w); [|left; reflexivity ..].
  destruct (existsb (has_id (uuid w)) (schedules w)) eqn:Hfresh;
    [left; reflexivity|].
  right. split; [reflexivity|]. eexists. repeat split.
Qed.

Lemma fresh_id_not_stored id (rows : list Row) :
  existsb (has_id id) rows = false -> ~ In id (map DbSchedule.id rows).
Proof.
  intros Hfresh Hin. apply in_map_iff in Hin as (r & Hid & Hr).
  assert (existsb (has_id id) rows = true) as Hex.
  { apply existsb_exists. exists r. split; [exact Hr|].
    unfold has_id. rewrite Hid. apply String.eqb_refl. }
  congruence.
Qed.

(** Every table reached by calls that run one after another has [id]
    as a key, and in it a row with [deleted_at] set is DELETED. *)
Lemma reachable_invariant w :
  reachable w ->
  unique_ids (schedules w) /\ Forall stamped_is_deleted (schedules w).
Proof.
  induction 1 as [plan0 clock0 uuid0
                 | w c Hreach [Hids Hstamp]
                 | w plan0 clock0 uuid0 Hreach IH].
  - split; constructor.
  - destruct c as [props|scheduleId|scheduleId to0|props|id|params];
      cbn [after].
    + destruct (create_table props w)
        as [->|(Hfresh & stored & -> & Hid & Hstate & Hdel)];
        [split; assumption|].
      split.
      * unfold unique_ids in *. rewrite map_app. cbn [map].
        apply NoDup_app; [exact Hids | repeat constructor; intros [] | ].
        intros x Hx [<-|[]]. rewrite Hid in Hx.
        exact (fresh_id_not_stored _ _ Hfresh Hx).
      * apply Forall_app. split; [exact Hstamp|].
        constructor; [|constructor]. intros Hset. congruence.
    + destruct (get_total scheduleId w) as (res & -> & _).
      split; assumption.
    + destruct (transitionState_table scheduleId to0 w)
        as [->|(r & Hrow & Hlegal & ->)]; [split; assumption|].
      split; [unfold unique_ids; now rewrite update_rows_ids|].
      apply update_rows_keeps; [exact Hstamp|].
      intros x Hx Hid Hx_ok Hset. exfalso.
      assert (x = r) as ->.
      { unfold lookup in Hrow. pose proof (find_some _ _ Hrow) as [Hr Hrid].
        apply (same_id_same_row (schedules w)); try assumption.
        unfold has_id in *.
        apply String.eqb_eq in Hid, Hrid. congruence. }
      cbn in Hset. rewrite (Hx_ok Hset) in Hlegal.
      destruct to0; discriminate Hlegal.
    + destruct (update_table props w) as [->| ->]; [split; assumption|].
      split; [unfold unique_ids; now rewrite update_rows_ids|].
      apply update_rows_keeps; [exact Hstamp|].
      intros x _ _ Hx_ok. exact Hx_ok.
    + destruct (remove_table id w) as [->| ->]; [split; assumption|].
      split; [unfold unique_ids; now rewrite update_rows_ids|].
      apply update_rows_keeps; [exact Hstamp|].
      intros x _ _ _ _. reflexivity.
    + rewrite search_run. split; assumption.
  - exact IH.
Qed.

(** A schedule [get] returns from such a store has [deletedAt] set only
    if it is DELETED. *)
Lemma reachable_get_stamped w scheduleId s :
  reachable w ->
  fst (get scheduleId w) = Normal (Ok s) ->
  Schedule.deletedAt s <> None -> Schedule.state s = DELETED.
Proof.
  intros Hreach Hget Hset.
  destruct (reachable_invariant w Hreach) as [_ Hstamp].
  destruct (get_total scheduleId w) as (res & Hrun & Hok & Hbad).
  rewrite Hrun in Hget. cbn [fst] in Hget. injection Hget as ->.
  destruct (next_event w) as [|fault|] eqn:Hev;
    try (specialize (Hbad ltac:(discriminate)); discriminate Hbad).
  specialize (Hok eq_refl).
  destruct (lookup scheduleId w) as [r|] eqn:Hrow; [|discriminate Hok].
  injection Hok as ->.
  unfold lookup in Hrow. apply find_some in Hrow as [Hr _].
  exact (proj1 (Forall_forall _ _) Hstamp r Hr Hset).
Qed.

(** ** The examples of the specification, run *)

Example search_by_state :
  fst (search {| SearchParams.name := None;
                 SearchParams.state := Some STARTED;
                 SearchParams.limit := 10 |} sample_world)
  = Normal (Ok [DbSchedule.from (sample_row "id-a" "a" STARTED)]).
Proof. reflexivity. Qed.

Example search_limit_one :
  fst (search {| SearchParams.name := None;
                 SearchParams.state := None;
                 SearchParams.limit := 1 |} sample_world)
  = Normal (Ok [DbSchedule.from (sample_row "id-a" "a" STARTED)])
  /\ fst (search {| SearchParams.name := None;
                    SearchParams.state := None;
                    SearchParams.limit := 1 |} empty_world)
     = Normal (Ok []).
Proof. split; reflexivity. Qed.

Example not_found :
  fst (get "nonexistent-id" sample_world)
  = Normal (Err (NewError "Error: no schedule 'nonexistent-id' found"))
  /\ fst (transitionState "nonexistent-id" PAUSED sample_world)
     = Normal (Err (NewError "Error: no schedule 'nonexistent-id' found"))
  /\ fst (update {| UpdateProps.id := "nonexistent-id";
                    UpdateProps.frequencyMs := None;
                    UpdateProps.payload := Some (JObject []) |} sample_world)
     = Normal (Err (NewError "Error: no schedule 'nonexistent-id' updated")).
Proof. repeat split; reflexivity. Qed.

Example create_on_empty :
  fst (create sample_props empty_world)
  = Normal (Ok {| Schedule.id := "id-a";
                  Schedule.name := "a";
                  Schedule.state := STARTED;
                  Schedule.startsAt := 1000;
                  Schedule.frequencyMs := 90000000;
                  Schedule.payload := JObject [("k", JNumber 1)];
                  Schedule.createdAt := 1000;
                  Schedule.updatedAt := 1000;
                  Schedule.deletedAt := None |}).
Proof. reflexivity. Qed.

(** * Further properties of the operations *)

(** ** When an operation succeeds *)

Lemma lookup_has_id id w r :
  lookup id w = Some r -> DbSchedule.id r = id.
Proof.
  unfold lookup. intros Hrow. apply find_some in Hrow as [_ Hid].
  now apply String.eqb_eq in Hid.
Qed.

Lemma update_ok props w s :
  fst (update props w) = Normal (Ok s) ->
  next_event w = Proceed
  /\ exists r,
       lookup (UpdateProps.id props) w = Some r
       /\ s = DbSchedule.from
                (apply_patch (newValues props (clock w))
                   (written_frequency props) r).
Proof.
  destruct (next_event w) as [|fault|] eqn:Hev.
  - rewrite (update_run props w Hev). cbn [fst].
    destruct (lookup (UpdateProps.id props) w) as [r|]; [|discriminate].
    intros [= <-]. split; [reflexivity|]. exists r. split; reflexivity.
  - unfold update, try_catch, bind, new_Date, where_id_update_returning.
    rewrite (statement_raise _ _ _ _ Hev). discriminate.
  - unfold update, try_catch, bind, new_Date, where_id_update_returning.
    rewrite (statement_norows _ _ _ Hev). discriminate.
Qed.

Lemma remove_ok id w s :
  fst (remove id w) = Normal (Ok s) ->
  next_event w = Proceed
  /\ exists r,
       lookup id w = Some r
       /\ s = DbSchedule.from (apply_patch (remove_values (clock w)) None r).
Proof.
  destruct (next_event w) as [|fault|] eqn:Hev.
  - rewrite (remove_run id w Hev). cbn [fst].
    destruct (lookup id w) as [r|]; [|discriminate].
    intros [= <-]. split; [reflexivity|]. exists r. split; reflexivity.
  - unfold remove, try_catch, bind, new_Date, where_id_update_returning.
    rewrite (statement_raise _ _ _ _ Hev). discriminate.
  - unfold remove, try_catch, bind, new_Date, where_id_update_returning.
    rewrite (statement_norows _ _ _ Hev). discriminate.
Qed.

Lemma transitionState_ok scheduleId to0 w s :
  fst (transitionState scheduleId to0 w) = Normal (Ok s) ->
  next_event w = Proceed
  /\ next_event (consume w) = Proceed
  /\ exists r,
       lookup scheduleId w = Some r
       /\ legal (DbSchedule.state r) to0 = true
       /\ s = DbSchedule.from
                (apply_patch (transition_values to0 (clock w)) None r).
Proof.
  destruct (get_total scheduleId w) as (res & Hget & Hok & Hbad).
  destruct res as [value|e].
  2:{ rewrite (transitionState_not_found _ to0 _ _ Hget). discriminate. }
  destruct (next_event w) as [|fault|] eqn:Hev;
    try (specialize (Hbad ltac:(discriminate)); discriminate Hbad).
  specialize (Hok eq_refl).
  destruct (lookup scheduleId w) as [r|] eqn:Hrow; [|discriminate Hok].
  injection Hok as ->.
  destruct (legal (DbSchedule.state r) to0) eqn:Hlegal.
  - rewrite (transitionState_run scheduleId to0 w r Hev Hrow Hlegal).
    destruct (next_event (consume w)); cbn [fst]; try discriminate.
    intros [= <-]. split; [reflexivity|]. split; [reflexivity|].
    exists r. split; [reflexivity|]. split; [exact Hlegal | reflexivity].
  - rewrite (transitionState_rejected _ to0 _ _ _ Hget
               (validate_illegal _ _ Hlegal)).
    discriminate.
Qed.

Lemma create_ok props w s :
  fst (create props w) = Normal (Ok s) ->
  next_event w = Proceed
  /\ existsb (has_id (uuid w)) (schedules w) = false
  /\ s = newSchedule props (clock w) (uuid w).
Proof.
  rewrite create_run.
  destruct (next_event w); try discriminate.
  destruct (existsb (has_id (uuid w)) (schedules w)); [discriminate|].
  intros [= <-]. repeat split.
Qed.

Lemma legal_in_table from0 to0 :
  legal from0 to0 = true
  <-> In {| from := from0; to := to0 |} validScheduleStateTransitions.
Proof.
  split.
  - destruct from0, to0; cbn; intros H; try discriminate H; tauto.
  - cbn. intros [H|[H|[H|[]]]]; injection H as <- <-; reflexivity.
Qed.

Lemma lookup_updated id p f w w0 r :
  lookup id w = Some r ->
  lookup id (with_schedules (update_rows id p f (schedules w)) w0)
  = Some (apply_patch p f r).
Proof.
  unfold lookup. cbn [schedules with_schedules]. intros Hrow.
  now rewrite find_update_rows, Hrow.
Qed.

(** [transitionState] succeeds only on a stored schedule and a pair of
    the transition table, whatever the engine does; the schedule it
    returns is the stored one with the new state and [updatedAt = now],
    every other field as stored. *)
Theorem transitionState_only_legal (scheduleId : string) (to0 : ScheduleState)
    (w : World) (s : Schedule.t)
    (Hok : fst (transitionState scheduleId to0 w) = Normal (Ok s)) :
  exists r,
    lookup scheduleId w = Some r
    /\ In {| from := DbSchedule.state r; to := to0 |}
          validScheduleStateTransitions
    /\ Schedule.state s = to0
    /\ Schedule.updatedAt s = clock w
    /\ Schedule.id s = scheduleId
    /\ Schedule.name s = DbSchedule.name r
    /\ Schedule.startsAt s = DbSchedule.starts_at r
    /\ Schedule.frequencyMs s = postgresIntervalInMs (DbSchedule.frequency r)
    /\ Schedule.payload s = DbSchedule.payload r
    /\ Schedule.createdAt s = DbSchedule.created_at r
    /\ Schedule.deletedAt s = DbSchedule.deleted_at r.
Proof.
  apply transitionState_ok in Hok as (_ & _ & r & Hrow & Hlegal & ->).
  exists r. split; [exact Hrow|].
  split; [now apply legal_in_table|].
  split; [reflexivity|]. split; [reflexivity|].
  split; [exact (lookup_has_id _ _ _ Hrow)|].
  repeat split.
Qed.

Lemma transitionState_only_legal_witness :
  exists r,
    lookup "id-a" sample_world = Some r
    /\ In {| from := DbSchedule.state r; to := PAUSED |}
          validScheduleStateTransitions.
Proof.
  destruct (transitionState_only_legal "id-a" PAUSED sample_world
              (DbSchedule.from
                 (apply_patch (transition_values PAUSED 2000) None
                    (sample_row "id-a" "a" STARTED)))
              eq_refl)
    as (r & Hrow & Hin & _).
  exists r. split; assumption.
Defined.

(** ** Reading back what was written *)

(** Whatever a writing operation returns as its schedule is what [get]
    of that schedule's id returns next, when the engine carries the read
    out. *)
Theorem read_your_writes (m : Mutation) (w : World) (s : Schedule.t)
    (Hok : fst (perform m w) = Normal (Ok s))
    (Hev : next_event (snd (perform m w)) = Proceed) :
  fst (get (Schedule.id s) (snd (perform m w))) = Normal (Ok s).
Proof.
  rewrite (get_run _ _ Hev). cbn [fst]. clear Hev.
  destruct m as [props|scheduleId to0|props|id]; cbn [perform] in *.
  - apply create_ok in Hok as (Hev & Hfresh & ->).
    rewrite create_run, Hev, Hfresh. cbn [snd newSchedule Schedule.id].
    unfold lookup. cbn [schedules with_schedules].
    rewrite find_appended;
      [ | exact Hfresh | unfold has_id; cbn; apply String.eqb_refl ].
    now rewrite from_stored_to.
  - apply transitionState_ok in Hok as (Hev & Hev' & r & Hrow & Hlegal & ->).
    rewrite (transitionState_run scheduleId to0 w r Hev Hrow Hlegal), Hev'.
    cbn [snd DbSchedule.from Schedule.id apply_patch DbSchedule.id].
    rewrite (lookup_has_id _ _ _ Hrow).
    now rewrite (lookup_updated _ _ _ _ _ _ Hrow).
  - apply update_ok in Hok as (Hev & r & Hrow & ->).
    rewrite (update_run props w Hev).
    cbn [snd DbSchedule.from Schedule.id apply_patch DbSchedule.id].
    rewrite (lookup_has_id _ _ _ Hrow).
    now rewrite (lookup_updated _ _ _ _ _ _ Hrow).
  - apply remove_ok in Hok as (Hev & r & Hrow & ->).
    rewrite (remove_run id w Hev).
    cbn [snd DbSchedule.from Schedule.id apply_patch DbSchedule.id].
    rewrite (lookup_has_id _ _ _ Hrow).
    now rewrite (lookup_updated _ _ _ _ _ _ Hrow).
Qed.

Lemma read_your_writes_witness :
  fst (get "id-a" (snd (perform (DoCreate sample_props) empty_world)))
  = fst (perform (DoCreate sample_props) empty_world).
Proof.
  exact (read_your_writes (DoCreate sample_props) empty_world
           (newSchedule sample_props 1000 "id-a") eq_refl eq_refl).
Defined.

(** ** What a call may change *)

Lemma find_app_found {A} (p : A -> bool) (l l' : list A) (x : A) :
  find p l = Some x -> find p (l ++ l') = Some x.
Proof.
  induction l as [|a l IH]; cbn [app find]; [discriminate|].
  destruct (p a); [trivial | exact IH].
Qed.

Lemma lookup_update_rows target id p f w w0 r :
  lookup id w = Some r ->
  lookup id (with_schedules (update_rows target p f (schedules w)) w0)
  = Some (if String.eqb target id then apply_patch p f r else r).
Proof.
  intros Hrow. destruct (String.eqb_spec target id) as [->|Hne].
  - now apply lookup_updated.
  - unfold lookup in *. cbn [schedules with_schedules].
    rewrite find_update_rows_other by congruence. exact Hrow.
Qed.

(** The row of an id after a call: as it was, or patched by a write on
    that id. *)
Lemma lookup_after c w id r :
  lookup id w = Some r ->
  lookup id (after c w) = Some r
  \/ match c with
     | CallTransitionState scheduleId to0 =>
         scheduleId = id
         /\ legal (DbSchedule.state r) to0 = true
         /\ lookup id (after c w)
            = Some (apply_patch (transition_values to0 (clock w)) None r)
     | CallUpdate props =>
         UpdateProps.id props = id
         /\ lookup id (after c w)
            = Some (apply_patch (newValues props (clock w))
                      (written_frequency props) r)
     | CallRemove target =>
         target = id
         /\ lookup id (after c w)
            = Some (apply_patch (remove_values (clock w)) None r)
     | _ => False
     end.
Proof.
  intros Hrow.
  destruct c as [props|scheduleId|scheduleId to0|props|target|params];
    cbn [after].
  - left. destruct (create_table props w) as [Hsame|(_ & stored & Happ & _)];
      unfold lookup in *; [now rewrite Hsame|].
    rewrite Happ. now apply find_app_found.
  - left. destruct (get_total scheduleId w) as (res & -> & _). exact Hrow.
  - destruct (transitionState_table scheduleId to0 w)
      as [Hsame|(r0 & Hrow0 & Hlegal & Htable)].
    + left. unfold lookup in *. now rewrite Hsame.
    + assert (lookup id (snd (transitionState scheduleId to0 w))
              = Some (if String.eqb scheduleId id
                      then apply_patch (transition_values to0 (clock w)) None r
                      else r)) as Hafter.
      { unfold lookup at 1. rewrite Htable.
        exact (lookup_update_rows scheduleId id _ None w w r Hrow). }
      destruct (String.eqb_spec scheduleId id) as [->|Hne];
        [right | left; exact Hafter].
      rewrite Hrow in Hrow0. injection Hrow0 as <-.
      repeat split; assumption.
  - destruct (update_table props w) as [Hsame|Htable].
    + left. unfold lookup in *. now rewrite Hsame.
    + assert (lookup id (snd (update props w))
              = Some (if String.eqb (UpdateProps.id props) id
                      then apply_patch (newValues props (clock w))
                             (written_frequency props) r
                      else r)) as Hafter.
      { unfold lookup at 1. rewrite Htable.
        exact (lookup_update_rows _ id _ _ w w r Hrow). }
      destruct (String.eqb_spec (UpdateProps.id props) id) as [Heq|Hne];
        [right; split; assumption | left; exact Hafter].
  - destruct (remove_table target w) as [Hsame|Htable].
    + left. unfold lookup in *. now rewrite Hsame.
    + assert (lookup id (snd (remove target w))
              = Some (if String.eqb target id
                      then apply_patch (remove_values (clock w)) None r
                      else r)) as Hafter.
      { unfold lookup at 1. rewrite Htable.
        exact (lookup_update_rows _ id _ None w w r Hrow). }
      destruct (String.eqb_spec target id) as [Heq|Hne];
        [right; split; assumption | left; exact Hafter].
  - left. unfold lookup in *. now rewrite search_run.
Qed.

(** No call erases a stored schedule or writes its [id], [name],
    [starts_at] or [created_at], whatever the engine does. The state
    changes only under [remove] or [transitionState] of that id, to the
    state asked for; [deleted_at] only under [remove] of that id;
    [frequency] and [payload] only under [update] of that id. *)
Theorem stored_row_frame (c : Call) (w : World) (id : string) (r : Row)
    (Hrow : lookup id w = Some r) :
  exists r',
    lookup id (after c w) = Some r'
    /\ same_identity r r'
    /\ (DbSchedule.state r' <> DbSchedule.state r ->
        (c = CallRemove id /\ DbSchedule.state r' = DELETED)
        \/ c = CallTransitionState id (DbSchedule.state r'))
    /\ (DbSchedule.deleted_at r' <> DbSchedule.deleted_at r ->
        c = CallRemove id)
    /\ (DbSchedule.frequency r' <> DbSchedule.frequency r
        \/ DbSchedule.payload r' <> DbSchedule.payload r ->
        exists props, c = CallUpdate props /\ UpdateProps.id props = id).
Proof.
  destruct (lookup_after c w id r Hrow) as [Hsame|Hpatched].
  - exists r. split; [exact Hsame|]. split; [repeat split|].
    split; [congruence|]. split; [congruence|]. intros [H|H]; congruence.
  - destruct c as [props|scheduleId|scheduleId to0|props|target|params];
      try contradiction.
    + destruct Hpatched as (-> & _ & Hafter).
      eexists. split; [exact Hafter|]. split; [repeat split|].
      cbn. split; [intros _; right; reflexivity|].
      split; [congruence|]. intros [H|H]; congruence.
    + destruct Hpatched as (<- & Hafter).
      eexists. split; [exact Hafter|]. split; [repeat split|].
      cbn. split; [congruence|]. split; [congruence|].
      intros _. exists props. split; reflexivity.
    + destruct Hpatched as (-> & Hafter).
      eexists. split; [exact Hafter|]. split; [repeat split|].
      cbn. split; [intros _; left; split; reflexivity|].
      split; [reflexivity|]. intros [H|H]; congruence.
Qed.

Lemma stored_row_frame_witness :
  exists r',
    lookup "id-b" (after (CallRemove "id-a") sample_world) = Some r'
    /\ same_identity (sample_row "id-b" "b" PAUSED) r'.
Proof.
  destruct (stored_row_frame (CallRemove "id-a") sample_world "id-b"
              (sample_row "id-b" "b" PAUSED) eq_refl)
    as (r' & Hafter & Hsame & _).
  exists r'. split; assumption.
Defined.

(** No call removes an id from the table or adds one, except [create],
    which adds the identifier it drew, and only when no stored row had
    it. The order of the table is not part of the statement. *)
Theorem ids_kept (c : Call) (w : World) :
  let ids := map DbSchedule.id (schedules w) in
  Permutation (map DbSchedule.id (schedules (after c w))) ids
  \/ (Permutation (map DbSchedule.id (schedules (after c w))) (uuid w :: ids)
      /\ ~ In (uuid w) ids
      /\ exists props, c = CallCreate props).
Proof.
  intros ids. unfold ids.
  destruct c as [props|scheduleId|scheduleId to0|props|target|params];
    cbn [after].
  - destruct (create_table props w)
      as [->|(Hfresh & stored & -> & Hid & _)]; [left; reflexivity|].
    right. rewrite map_app. cbn [map]. rewrite Hid.
    split; [symmetry; apply Permutation_cons_append|].
    split; [now apply fresh_id_not_stored|].
    exists props. reflexivity.
  - left. now destruct (get_total scheduleId w) as (res & -> & _).
  - left. destruct (transitionState_table scheduleId to0 w)
      as [->|(_ & _ & _ & ->)]; [reflexivity | now rewrite update_rows_ids].
  - left. destruct (update_table props w) as [->| ->];
      [reflexivity | now rewrite update_rows_ids].
  - left. destruct (remove_table target w) as [->| ->];
      [reflexivity | now rewrite update_rows_ids].
  - left. now rewrite search_run.
Qed.

(** ** [get] *)

(** [get] never writes. Whatever the engine does, a schedule it returns
    is the decoding of the stored row of that id, whatever the state of
    the row: a DELETED schedule is returned like any other. When the
    engine carries the read out, [get] fails exactly when no row has the
    id. *)
Theorem get_reads_stored (scheduleId : string) (w : World) :
  schedules (snd (get scheduleId w)) = schedules w
  /\ match fst (get scheduleId w) with
     | Normal (Ok s) =>
         Schedule.id s = scheduleId
         /\ exists r, lookup scheduleId w = Some r /\ s = DbSchedule.from r
     | Normal (Err e) =>
         match next_event w with
         | Proceed =>
             lookup scheduleId w = None
             /\ message e = "Error: no schedule '" ++ scheduleId ++ "' found"
         | Raise fault =>
             message e = "Error getting schedule '" ++ scheduleId ++ "': "
                         ++ stringifyError fault
         | NoRows =>
             message e = "Error: no schedule '" ++ scheduleId ++ "' found"
         end
     | Abrupt _ => False
     end
  /\ match next_event w, lookup scheduleId w with
     | Proceed, Some r => fst (get scheduleId w) = Normal (Ok (DbSchedule.from r))
     | _, _ => isErr_completion (fst (get scheduleId w)) = true
     end.
Proof.
  unfold get, try_catch, bind, where_id_first, statement.
  fold (lookup scheduleId w).
  destruct (next_event w) as [|fault|]; cbn [fst snd].
  - destruct (lookup scheduleId w) as [r|] eqn:Hrow; cbn [fst snd].
    + split; [reflexivity|]. split; [|reflexivity].
      split; [exact (lookup_has_id _ _ _ Hrow)|].
      exists r. split; reflexivity.
    + repeat split.
  - repeat split.
  - repeat split.
Qed.

(** ** [transitionState], the remaining cases *)

(** On an id that no row has, [transitionState] fails with the
    not-found failure and writes nothing, whatever the target and
    whatever the engine does. *)
Theorem transitionState_unknown_id (scheduleId : string) (to0 : ScheduleState)
    (w : World) (Hnone : lookup scheduleId w = None) :
  fst (transitionState scheduleId to0 w)
  = Normal (Err (NewError ("Error: no schedule '" ++ scheduleId ++ "' found")))
  /\ schedules (snd (transitionState scheduleId to0 w)) = schedules w.
Proof.
  destruct (get_total scheduleId w) as (res & Hget & Hok & Hbad).
  assert (exists e, res = Err e) as (e & ->).
  { destruct (next_event w) as [|fault|] eqn:Hev.
    - rewrite (Hok eq_refl), Hnone. eexists; reflexivity.
    - specialize (Hbad ltac:(discriminate)).
      destruct res; [discriminate Hbad | eexists; reflexivity].
    - specialize (Hbad ltac:(discriminate)).
      destruct res; [discriminate Hbad | eexists; reflexivity]. }
  rewrite (transitionState_not_found _ to0 _ _ Hget). split; reflexivity.
Qed.

Lemma transitionState_unknown_id_witness :
  fst (transitionState "nonexistent-id" PAUSED sample_world)
  = Normal (Err (NewError "Error: no schedule 'nonexistent-id' found")).
Proof.
  exact (proj1 (transitionState_unknown_id "nonexistent-id" PAUSED
                  sample_world eq_refl)).
Defined.

(** On a stored schedule and a pair of the transition table, with the
    read carried out: if the engine carries the write out too, the move
    succeeds, the row gets the new state and [updated_at = now] and
    keeps every other column, and no other id is touched; if the engine
    reports no row for the write, the call fails with the not-updated
    failure and the table is as it was. *)
Theorem transitionState_legal_move (scheduleId : string) (to0 : ScheduleState)
    (w : World) (r : Row)
    (Hev : next_event w = Proceed)
    (Hrow : lookup scheduleId w = Some r)
    (Hin : In {| from := DbSchedule.state r; to := to0 |}
              validScheduleStateTransitions) :
  let w' := snd (transitionState scheduleId to0 w) in
  match next_event (consume w) with
  | Proceed =>
      exists r',
        fst (transitionState scheduleId to0 w) = Normal (Ok (DbSchedule.from r'))
        /\ lookup scheduleId w' = Some r'
        /\ DbSchedule.state r' = to0
        /\ DbSchedule.updated_at r' = clock w
        /\ same_identity r r'
        /\ DbSchedule.frequency r' = DbSchedule.frequency r
        /\ DbSchedule.payload r' = DbSchedule.payload r
        /\ DbSchedule.deleted_at r' = DbSchedule.deleted_at r
        /\ (forall other, other <> scheduleId ->
              lookup other w' = lookup other w)
  | NoRows =>
      fst (transitionState scheduleId to0 w)
      = Normal (Err (NewError ("Error: no schedule '" ++ scheduleId
                               ++ "' updated")))
      /\ schedules w' = schedules w
  | Raise fault =>
      fst (transitionState scheduleId to0 w)
      = Normal (Err (NewError ("Error transitioning schedule '" ++ scheduleId
                               ++ "': " ++ stringifyError fault)))
      /\ schedules w' = schedules w
  end.
Proof.
  intros w'. unfold w'. apply legal_in_table in Hin.
  rewrite (transitionState_run scheduleId to0 w r Hev Hrow Hin).
  destruct (next_event (consume w)) as [|fault|]; cbn [fst snd];
    try (split; reflexivity).
  eexists. split; [reflexivity|].
  split; [exact (lookup_updated _ _ _ _ _ _ Hrow)|].
  split; [reflexivity|]. split; [reflexivity|].
  split; [repeat split|].
  split; [reflexivity|]. split; [reflexivity|]. split; [reflexivity|].
  intros other Hne. unfold lookup. cbn [schedules with_schedules].
  now apply find_update_rows_other.
Qed.

Lemma transitionState_legal_move_witness :
  exists r',
    fst (transitionState "id-b" STARTED sample_world)
    = Normal (Ok (DbSchedule.from r'))
    /\ DbSchedule.state r' = STARTED
    /\ DbSchedule.updated_at r' = 2000.
Proof.
  destruct (transitionState_legal_move "id-b" STARTED sample_world
              (sample_row "id-b" "b" PAUSED) eq_refl eq_refl
              ltac:(cbn; tauto))
    as (r' & Hres & _ & Hstate & Hupd & _).
  exists r'. repeat split; assumption.
Defined.

(** ** Stores reached by calls that run one after another *)

Lemma find_own_id (rows : list Row) (r : Row) :
  unique_ids rows -> In r rows ->
  find (has_id (DbSchedule.id r)) rows = Some r.
Proof.
  intros Hids Hr.
  destruct (find (has_id (DbSchedule.id r)) rows) as [x|] eqn:Hfind.
  - apply find_some in Hfind as [Hx Hid]. f_equal.
    apply (same_id_same_row rows); try assumption.
    now apply String.eqb_eq in Hid.
  - exfalso. pose proof (find_none _ _ Hfind r Hr) as Hno.
    unfold has_id in Hno. now rewrite String.eqb_refl in Hno.
Qed.

(** In a reachable store, every schedule [search] returns is the one
    [get] of its id returns next, when the engine carries that read
    out. *)
Theorem search_then_get (params : SearchParams.t) (w : World)
    (found : list Schedule.t) (s : Schedule.t)
    (Hreach : reachable w)
    (Hfound : fst (search params w) = Normal (Ok found))
    (Hs : In s found)
    (Hev : next_event (snd (search params w)) = Proceed) :
  fst (get (Schedule.id s) (snd (search params w))) = Normal (Ok s).
Proof.
  rewrite (get_run _ _ Hev). cbn [fst]. clear Hev.
  rewrite search_run in *. cbn [fst snd] in *.
  assert (exists r, In r (schedules w) /\ s = DbSchedule.from r)
    as (r & Hr & ->).
  { destruct (next_event w); try discriminate Hfound;
      destruct (SearchParams.limit params <? 0); try discriminate Hfound;
      injection Hfound as <-; [|destruct Hs].
    apply in_map_iff in Hs as (r & <- & Hr).
    apply in_firstn in Hr. apply filter_In in Hr as [Hr _].
    exists r. split; [exact Hr | reflexivity]. }
  destruct (reachable_invariant w Hreach) as [Hids _].
  unfold lookup. cbn [schedules consume DbSchedule.from Schedule.id].
  now rewrite (find_own_id _ _ Hids Hr).
Qed.

Lemma search_then_get_witness :
  fst (get "id-a"
         (snd (search {| SearchParams.name := None;
                         SearchParams.state := None;
                         SearchParams.limit := 10 |}
                 (after (CallCreate sample_props) empty_world))))
  = Normal (Ok (newSchedule sample_props 1000 "id-a")).
Proof.
  exact (search_then_get
           {| SearchParams.name := None; SearchParams.state := None;
              SearchParams.limit := 10 |}
           (after (CallCreate sample_props) empty_world)
           [newSchedule sample_props 1000 "id-a"]
           (newSchedule sample_props 1000 "id-a")
           (reach_call _ (CallCreate sample_props) (reach_empty [] 1000 "id-a"))
           eq_refl (or_introl eq_refl) eq_refl).
Defined.

(** ** [search] and its limit *)

(** With the query carried out and a limit no smaller than the number
    of stored rows that pass the filters, [search] returns every one of
    them: the decoding of each such row is in the result, and the result
    has as many schedules as there are such rows. *)
Theorem search_returns_all (params : SearchParams.t) (w : World)
    (Hev : next_event w = Proceed)
    (Hlimit : Z.of_nat (List.length (filter (matches params) (schedules w)))
              <= SearchParams.limit params) :
  exists found,
    fst (search params w) = Normal (Ok found)
    /\ (forall r, In r (schedules w) -> matches params r = true ->
          In (DbSchedule.from r) found)
    /\ List.length found
       = List.length (filter (matches params) (schedules w)).
Proof.
  rewrite search_run, Hev. cbn [fst].
  destruct (Z.ltb_spec (SearchParams.limit params) 0) as [Hneg|_]; [lia|].
  rewrite firstn_all2 by lia.
  eexists. split; [reflexivity|]. split.
  - intros r Hr Hm. apply in_map. apply filter_In. split; assumption.
  - apply length_map.
Qed.

Lemma search_returns_all_witness :
  exists found,
    fst (search {| SearchParams.name := None;
                   SearchParams.state := Some PAUSED;
                   SearchParams.limit := 5 |} sample_world)
    = Normal (Ok found)
    /\ In (DbSchedule.from (sample_row "id-b" "b" PAUSED)) found.
Proof.
  destruct (search_returns_all
              {| SearchParams.name := None; SearchParams.state := Some PAUSED;
                 SearchParams.limit := 5 |}
              sample_world eq_refl ltac:(cbn; lia))
    as (found & Hres & Hall & _).
  exists found. split; [exact Hres|].
  apply Hall; [right; left; reflexivity | reflexivity].
Defined.

(** ** The row mapping *)

(** [DbSchedule.to] loses nothing: two schedules with the same row are
    the same schedule. *)
Theorem to_injective (s1 s2 : Schedule.t)
    (Hsame : DbSchedule.to s1 = DbSchedule.to s2) :
  s1 = s2.
Proof.
  assert (Schedule.frequencyMs s1 = Schedule.frequencyMs s2) as Hfreq.
  { pose proof (f_equal DbSchedule.frequency Hsame) as Hlit.
    cbn [DbSchedule.to DbSchedule.frequency] in Hlit.
    pose proof (interval_in_literal (Schedule.frequencyMs s1)) as H1.
    rewrite Hlit, interval_in_literal in H1. congruence. }
  destruct s1, s2. cbn in *. injection Hsame as -> -> -> -> _ -> -> -> ->.
  now subst.
Qed.

Lemma to_injective_witness :
  newSchedule sample_props 1000 "id-a" = newSchedule sample_props 1000 "id-a".
Proof.
  exact (to_injective _ _ eq_refl).
Defined.

(** ** Repeated deletes *)

(** A second [remove] of a schedule succeeds like the first and stamps
    it again: after [remove] at one time and [remove] at a later time,
    [deleted_at] and [updated_at] are the later time, and nothing else
    differs from the row the first [remove] left. *)
Theorem remove_stamps_again (id : string) (w : World) (r : Row)
    (later : Date) (plan0 : list Event) (uuid0 : string)
    (Hev : next_event w = Proceed)
    (Hrow : lookup id w = Some r) :
  let w1 := snd (remove id w) in
  let w2 := {| schedules := schedules w1; plan := Proceed :: plan0;
               clock := later; uuid := uuid0 |} in
  exists r1 r2,
    lookup id w1 = Some r1
    /\ fst (remove id w2) = Normal (Ok (DbSchedule.from r2))
    /\ lookup id (snd (remove id w2)) = Some r2
    /\ DbSchedule.deleted_at r1 = Some (clock w)
    /\ DbSchedule.deleted_at r2 = Some later
    /\ DbSchedule.updated_at r2 = later
    /\ DbSchedule.state r2 = DELETED
    /\ same_identity r1 r2
    /\ DbSchedule.frequency r2 = DbSchedule.frequency r1
    /\ DbSchedule.payload r2 = DbSchedule.payload r1.
Proof.
  intros w1 w2.
  assert (lookup id w1
          = Some (apply_patch (remove_values (clock w)) None r)) as Hrow1.
  { unfold w1. rewrite (remove_run id w Hev). cbn [snd].
    exact (lookup_updated _ _ _ _ _ _ Hrow). }
  assert (lookup id w2
          = Some (apply_patch (remove_values (clock w)) None r)) as Hrow2.
  { exact Hrow1. }
  eexists. eexists. split; [exact Hrow1|].
  rewrite (remove_run id w2 eq_refl), Hrow2. cbn [fst snd].
  split; [reflexivity|].
  split; [exact (lookup_updated _ _ _ _ _ _ Hrow2)|].
  repeat split.
Qed.

Lemma remove_stamps_again_witness :
  exists r2,
    fst (remove "id-a"
           {| schedules := schedules (snd (remove "id-a" sample_world));
              plan := [Proceed]; clock := 3000; uuid := "id-c" |})
    = Normal (Ok (DbSchedule.from r2))
    /\ DbSchedule.deleted_at r2 = Some 3000.
Proof.
  destruct (remove_stamps_again "id-a" sample_world
              (sample_row "id-a" "a" STARTED) 3000 [] "id-c" eq_refl eq_refl)
    as (r1 & r2 & _ & Hres & _ & _ & Hdel & _).
  exists r2. split; assumption.
Defined.

(** ** Partial updates compose *)

Lemma update_rows_twice id p1 f1 p2 f2 p f rows :
  (forall r, apply_patch p2 f2 (apply_patch p1 f1 r) = apply_patch p f r) ->
  update_rows id p2 f2 (update_rows id p1 f1 rows) = update_rows id p f rows.
Proof.
  intros Hpatch. unfold update_rows. rewrite map_map. apply map_ext.
  intros r. destruct (has_id id r) eqn:E.
  - rewrite has_id_apply_patch, E. apply Hpatch.
  - now rewrite E.
Qed.

(** Updating the frequency and then the payload of a schedule, at the
    same clock reading, leaves the table that updating both in one call
    leaves, and returns the same schedule. *)
Theorem update_in_two_steps (id : string) (frequencyMs : option Z)
    (payload : option JsonValue) (w : World)
    (Hev : next_event w = Proceed)
    (Hev' : next_event (consume w) = Proceed) :
  let first := {| UpdateProps.id := id; UpdateProps.frequencyMs := frequencyMs;
                  UpdateProps.payload := None |} in
  let second := {| UpdateProps.id := id; UpdateProps.frequencyMs := None;
                   UpdateProps.payload := payload |} in
  let both := {| UpdateProps.id := id; UpdateProps.frequencyMs := frequencyMs;
                 UpdateProps.payload := payload |} in
  schedules (snd (update second (snd (update first w))))
  = schedules (snd (update both w))
  /\ fst (update second (snd (update first w))) = fst (update both w).
Proof.
  intros first second both.
  rewrite (update_run first w Hev), (update_run both w Hev). cbn [snd fst].
  rewrite (update_run second
             (with_schedules
                (update_rows (UpdateProps.id first) (newValues first (clock w))
                   (written_frequency first) (schedules w))
                (consume w)) Hev').
  cbn [snd fst].
  cbn [schedules with_schedules consume clock UpdateProps.id first second both].
  assert (forall r,
            apply_patch (newValues second (clock w)) (written_frequency second)
              (apply_patch (newValues first (clock w)) (written_frequency first) r)
            = apply_patch (newValues both (clock w)) (written_frequency both) r)
    as Hpatch.
  { intros r. unfold apply_patch, newValues, written_frequency, when_truthy.
    cbn. destruct frequencyMs as [n|]; cbn;
      [destruct (truthy_number n)|]; cbn;
      (destruct payload as [v|]; cbn; [destruct (truthy_json v)|]);
      reflexivity. }
  split.
  - now apply update_rows_twice.
  - unfold lookup. cbn [schedules with_schedules].
    rewrite find_update_rows.
    destruct (find (has_id id) (schedules w)) as [r|]; cbn [option_map];
      [|reflexivity].
    now rewrite Hpatch.
Qed.

Lemma update_in_two_steps_witness :
  fst (update {| UpdateProps.id := "id-a"; UpdateProps.frequencyMs := None;
                 UpdateProps.payload := Some (JString "x") |}
         (snd (update {| UpdateProps.id := "id-a";
                         UpdateProps.frequencyMs := Some 60000;
                         UpdateProps.payload := None |} sample_world)))
  = fst (update {| UpdateProps.id := "id-a";
                   UpdateProps.frequencyMs := Some 60000;
                   UpdateProps.payload := Some (JString "x") |} sample_world).
Proof.
  exact (proj2 (update_in_two_steps "id-a" (Some 60000) (Some (JString "x"))
                  sample_world eq_refl eq_refl)).
Defined.

(** ** Calls that overlap *)

(** [transitionState] is its read followed, when the read validates, by
    its write. *)
Lemma transitionState_split scheduleId to0 w :
  transitionState scheduleId to0 w
  = match transitionState_read scheduleId to0 w with
    | (Normal (Ok _), w1) => transitionState_write scheduleId to0 w1
    | (Normal (Err e), w1) => (Normal (Err e), w1)
    | (Abrupt err, w1) =>
        (Normal (Err (NewError ("Error transitioning schedule '" ++ scheduleId
                                ++ "': " ++ stringifyError err))), w1)
    end.
Proof.
  destruct (get_total scheduleId w) as (res & Hget & _).
  unfold transitionState, transitionState_read, transitionState_write,
    try_catch, bind.
  rewrite Hget. destruct res as [value|e]; [|reflexivity].
  unfold ret. destruct (validate (Schedule.state value) to0); reflexivity.
Qed.

Lemma transitionState_read_run scheduleId to0 w :
  exists res,
    transitionState_read scheduleId to0 w = (Normal res, consume w)
    /\ (next_event w = Proceed ->
        forall r, lookup scheduleId w = Some r ->
                  res = validate (DbSchedule.state r) to0).
Proof.
  destruct (get_total scheduleId w) as (res & Hget & Hok & _).
  unfold transitionState_read, bind. rewrite Hget.
  destruct res as [value|e]; unfold ret; eexists; (split; [reflexivity|]).
  - intros Hev r Hrow. specialize (Hok Hev). rewrite Hrow in Hok.
    injection Hok as ->. reflexivity.
  - intros Hev r Hrow. specialize (Hok Hev). rewrite Hrow in Hok.
    discriminate Hok.
Qed.

Lemma transitionState_write_run scheduleId to0 w :
  next_event w = Proceed ->
  let p := transition_values to0 (clock w) in
  transitionState_write scheduleId to0 w
  = (Normal
       match lookup scheduleId w with
       | None =>
           Err (NewError ("Error: no schedule '" ++ scheduleId ++ "' updated"))
       | Some r => Ok (DbSchedule.from (apply_patch p None r))
       end,
     with_schedules (update_rows scheduleId p None (schedules w)) (consume w)).
Proof.
  intros Hev p. unfold transitionState_write, try_catch, bind, new_Date.
  change {| set_state := Some to0; set_frequency := None;
            set_payload := None; set_updated_at := Some (clock w);
            set_deleted_at := None |} with p.
  rewrite (update_statement_proceed scheduleId p w Hev eq_refl).
  pose proof (first_of_updated scheduleId p None (schedules w)) as Hfirst.
  unfold lookup.
  destruct (filter (has_id scheduleId)
              (update_rows scheduleId p None (schedules w)));
    destruct (find (has_id scheduleId) (schedules w));
    simpl in Hfirst; try discriminate Hfirst; unfold ret.
  - reflexivity.
  - injection Hfirst as ->. reflexivity.
Qed.


(** The write of [transitionState] is keyed on the id alone. When a
    [remove] of the same id lands between the read, which validated the
    move against the state it saw, and the write, both succeed and the
    write wins: the row ends in the state asked for with the
    [deleted_at] that [remove] stamped. So a move to PAUSED or STARTED
    takes a removed schedule out of DELETED, and leaves it with
    [deleted_at] set. *)
Theorem write_lands_after_remove (scheduleId : string) (to0 : ScheduleState)
    (w : World) (r : Row)
    (Hev1 : next_event w = Proceed)
    (Hev2 : next_event (consume w) = Proceed)
    (Hev3 : next_event (consume (consume w)) = Proceed)
    (Hrow : lookup scheduleId w = Some r)
    (Hin : In {| from := DbSchedule.state r; to := to0 |}
              validScheduleStateTransitions) :
  let w1 := snd (transitionState_read scheduleId to0 w) in
  let w2 := snd (remove scheduleId w1) in
  let w3 := snd (transitionState_write scheduleId to0 w2) in
  fst (transitionState_read scheduleId to0 w)
  = Normal (Ok {| from := DbSchedule.state r; to := to0 |})
  /\ (exists r2,
        fst (remove scheduleId w1) = Normal (Ok (DbSchedule.from r2))
        /\ lookup scheduleId w2 = Some r2
        /\ DbSchedule.state r2 = DELETED
        /\ DbSchedule.deleted_at r2 = Some (clock w))
  /\ (exists r3,
        fst (transitionState_write scheduleId to0 w2)
        = Normal (Ok (DbSchedule.from r3))
        /\ lookup scheduleId w3 = Some r3
        /\ DbSchedule.state r3 = to0
        /\ DbSchedule.deleted_at r3 = Some (clock w)
        /\ DbSchedule.updated_at r3 = clock w)
  /\ (forall pending, overlapping w pending -> overlapping w3 pending).
Proof.
  intros w1 w2 w3.
  destruct (transitionState_read_run scheduleId to0 w) as (res & Hread & Hres).
  specialize (Hres Hev1 r Hrow).
  rewrite (validate_legal _ _ (proj2 (legal_in_table _ _) Hin)) in Hres.
  subst res.
  assert (w1 = consume w) as Hw1 by (unfold w1; now rewrite Hread).
  assert (lookup scheduleId w1 = Some r) as Hrow1 by (rewrite Hw1; exact Hrow).
  assert (next_event w1 = Proceed) as Hev1' by (rewrite Hw1; exact Hev2).
  pose proof (remove_run scheduleId w1 Hev1') as Hremove.
  cbn zeta in Hremove. rewrite Hrow1 in Hremove.
  set (r2 := apply_patch (remove_values (clock w1)) None r) in *.
  assert (lookup scheduleId w2 = Some r2) as Hrow2.
  { unfold w2. rewrite Hremove. cbn [snd].
    exact (lookup_updated _ _ _ _ _ _ Hrow1). }
  assert (next_event w2 = Proceed) as Hev2'.
  { unfold w2. rewrite Hremove, Hw1. exact Hev3. }
  pose proof (transitionState_write_run scheduleId to0 w2 Hev2') as Hwrite.
  cbn zeta in Hwrite. rewrite Hrow2 in Hwrite.
  assert (clock w2 = clock w) as Hclock2.
  { unfold w2. rewrite Hremove, Hw1. reflexivity. }
  assert (clock w1 = clock w) as Hclock1 by (rewrite Hw1; reflexivity).
  split; [now rewrite Hread|].
  split.
  { exists r2. split; [now rewrite Hremove|]. split; [exact Hrow2|].
    split; [reflexivity|]. unfold r2. cbn. now rewrite Hclock1. }
  split.
  { eexists. split; [unfold w3; rewrite Hwrite; reflexivity|].
    split.
    { unfold w3. rewrite Hwrite. cbn [snd].
      exact (lookup_updated _ _ _ _ _ _ Hrow2). }
    split; [reflexivity|]. unfold r2. cbn. rewrite Hclock1, Hclock2.
    split; reflexivity. }
  intros pending Hover.
  apply (over_write _ [] pending scheduleId to0). cbn [app].
  apply (over_call _ _ (CallRemove scheduleId)).
  apply (over_read _ _ _ _ {| from := DbSchedule.state r; to := to0 |});
    [exact Hover | now rewrite Hread].
Qed.

Lemma write_lands_after_remove_witness :
  exists r3,
    lookup "id-a"
      (snd (transitionState_write "id-a" PAUSED
              (snd (remove "id-a"
                      (snd (transitionState_read "id-a" PAUSED sample_world))))))
    = Some r3
    /\ DbSchedule.state r3 = PAUSED
    /\ DbSchedule.deleted_at r3 = Some 2000.
Proof.
  destruct (write_lands_after_remove "id-a" PAUSED sample_world
              (sample_row "id-a" "a" STARTED) eq_refl eq_refl eq_refl eq_refl
              ltac:(cbn; tauto))
    as (_ & _ & (r3 & _ & Hrow & Hstate & Hdel & _) & _).
  exists r3. repeat split; assumption.
Defined.


(** Calls that run one after another are a case of calls that overlap. *)
Lemma reachable_overlapping w : reachable w -> overlapping w [].
Proof.
  induction 1; [apply over_empty | now apply over_call | now apply over_env].
Qed.


